(** * wordsreminder: the filtrable list and the sign-up service

    A shallow embedding of [src/components/list/filtrable-list.tsx] (the
    [FiltrableList] component) and of the [signUp] service, followed by the
    properties of the live-collection view model.

    Conventions of the embedding.
    - JavaScript arrays are objects: two variables may hold the same array.
      The arrays the component handles live in a [Heap]; component state
      holds references ([ref]) into it.  [Array.prototype.sort] sorts in
      place and returns its receiver, [filter], [map] and [Array.from]
      return fresh arrays.
    - [this.setState(partial)] is the shallow merge of [partial] into
      [this.state] ([setState]) as long as React has the instance mounted;
      once React has unmounted it, React drops the update
      ([React_setState]).  The component itself contains no other write to
      [this.state].
    - An [await] splits a method in two: the part that runs up to the
      [await], and the continuation that runs once the promise settles.
    - Collaborators that are imported but not part of these files
      ([isStringEmpty], [getErrorMessageFromFirestoreError], the props) are
      section variables. *)

From Stdlib Require Import ZArith Lia List Permutation Sorted.
From stdpp Require Import base list strings gmap.
Import ListNotations.

Local Open Scope Z_scope.

(** * The model *)

Module Model.

(** ** Entities *)

(** Modelled from the spec: the [Entity] type of [@models/entity] is missing
    from the sources.  The spec's data model gives it a unique identifier
    [id] (optional until persisted: the component reads it as [entity.id!])
    and an optional [updatedAt] timestamp; everything else is opaque payload.
    [updatedAt] is a [Date]; it is kept as the value of its [getTime()],
    the milliseconds since the epoch. *)
Record Entity : Type := mkEntity {
  id : option string;
  updatedAt : option Z;
  data : string;
}.

#[global] Instance Entity_eq_dec : EqDecision Entity.
Proof. solve_decision. Defined.

(** The [STATUS] union of [@constants/statuses]; the sign-in screen also
    uses [STATUS_IDLE]. *)
Inductive STATUS : Type :=
| STATUS_IDLE
| STATUS_LOADING
| STATUS_SUCCESS
| STATUS_ERROR.

#[global] Instance STATUS_eq_dec : EqDecision STATUS.
Proof. solve_decision. Defined.

(** ** Arrays and the heap *)

(** [Array.prototype.sort(comparefn)].  ECMAScript requires the sort to be
    stable and, for a consistent comparator, to order the array by it; the
    result for an inconsistent comparator is left to the engine.  The
    built-in is modelled as the stable insertion sort: an element moves past
    another one only when the comparator asks for it ([comparefn] positive). *)
Fixpoint Array_sort_insert {A : Type} (comparefn : A -> A -> Z) (x : A) (l : list A)
  : list A :=
  match l with
  | [] => [x]
  | y :: l' =>
      if (0 <? comparefn x y) then y :: Array_sort_insert comparefn x l'
      else x :: y :: l'
  end.

Fixpoint Array_sort {A : Type} (comparefn : A -> A -> Z) (l : list A) : list A :=
  match l with
  | [] => []
  | x :: l' => Array_sort_insert comparefn x (Array_sort comparefn l')
  end.

(** Identity of an array object. *)
Abbreviation ref := nat.

(** The arrays allocated so far; a reference is an index. *)
Abbreviation Heap := (list (list Entity)).

(** Contents of the array behind a reference. *)
Definition deref (h : Heap) (r : ref) : list Entity := default [] (h !! r).

(** A new array object holding [v]. *)
Definition alloc (h : Heap) (v : list Entity) : Heap * ref := (h ++ [v], length h).

(** In-place update of the array behind [r]. *)
Definition write (h : Heap) (r : ref) (v : list Entity) : Heap := <[r := v]> h.

(** ** Component state *)

Record State : Type := mkState {
  entities : ref;
  filter : option string;
  isRefreshing : bool;
  status : STATUS;
  error : option string;
}.

(** The cell of [memoize-one]: the arguments and the result of the latest
    call.  Arguments are compared with [===]: arrays by identity, strings
    and [undefined] by value. *)
Record MemoCell : Type := mkMemoCell {
  lastEntities : ref;
  lastFilter : option string;
  lastResult : ref;
}.

(** Which call of [refreshEntities] a pending [query.get()] belongs to. *)
Inductive FetchOrigin : Type :=
| FromComponentDidMount
| FromHandleRefresh.

#[global] Instance FetchOrigin_eq_dec : EqDecision FetchOrigin.
Proof. solve_decision. Defined.

(** A [FiltrableList] instance together with what it shares with its
    environment: [state], [unsubscribe] and [memo] are the instance's own
    fields ([memo] is the closure state of the memoized [filterEntities]);
    [heap] is the JavaScript heap; [listening] tells whether the listener
    registered by [query.onSnapshot] is still registered; [pending] are the
    [query.get()] promises that have not settled yet. *)
Record FiltrableList : Type := mkFiltrableList {
  state : State;
  unsubscribe : option unit;
  memo : option MemoCell;
  heap : Heap;
  listening : bool;
  pending : list FetchOrigin;
}.

Definition with_state (s : State) (c : FiltrableList) : FiltrableList :=
  mkFiltrableList s (unsubscribe c) (memo c) (heap c) (listening c) (pending c).
Definition with_unsubscribe (u : option unit) (c : FiltrableList) : FiltrableList :=
  mkFiltrableList (state c) u (memo c) (heap c) (listening c) (pending c).
Definition with_memo (m : option MemoCell) (c : FiltrableList) : FiltrableList :=
  mkFiltrableList (state c) (unsubscribe c) m (heap c) (listening c) (pending c).
Definition with_heap (h : Heap) (c : FiltrableList) : FiltrableList :=
  mkFiltrableList (state c) (unsubscribe c) (memo c) h (listening c) (pending c).
Definition with_listening (b : bool) (c : FiltrableList) : FiltrableList :=
  mkFiltrableList (state c) (unsubscribe c) (memo c) (heap c) b (pending c).
Definition with_pending (p : list FetchOrigin) (c : FiltrableList) : FiltrableList :=
  mkFiltrableList (state c) (unsubscribe c) (memo c) (heap c) (listening c) p.

(** [this.setState(partial)]: [partial] is given as the merge it performs. *)
Definition setState (partial : State -> State) (c : FiltrableList) : FiltrableList :=
  with_state (partial (state c)) c.

(** [this.setState] as React performs it.  On a mounted instance it is the
    merge; on an instance React has unmounted the update is dropped (React
    only warns about it).  The handlers that can still be called after the
    unmount, the feed's callbacks and the continuation of a pending fetch,
    are written against it. *)
Definition React_setState (isMounted : bool) (partial : State -> State)
    (c : FiltrableList) : FiltrableList :=
  if isMounted then setState partial c else c.

(** An instance together with React's knowledge of whether it is mounted. *)
Record Hosted : Type := mkHosted {
  this : FiltrableList;
  mounted : bool;
}.

(** [initialState]: its [entities] array is the first object of the heap. *)
Definition initialState : State :=
  mkState 0%nat None false STATUS_LOADING None.

Definition initialHeap : Heap := [[]].

(** A freshly constructed instance: nothing subscribed, nothing memoized. *)
Definition newFiltrableList : FiltrableList :=
  mkFiltrableList initialState None None initialHeap false [].

(** The array [this.state.entities] refers to. *)
Definition stateEntities (c : FiltrableList) : list Entity :=
  deref (heap c) (entities (state c)).

(** [compareUpdatedAt]: a comparison that involves an absent [updatedAt]
    ([== null] holds for [null] and [undefined]) gives 0. *)
Definition compareUpdatedAt (e1 e2 : Entity) : Z :=
  match updatedAt e2, updatedAt e1 with
  | Some t2, Some t1 => t2 - t1
  | _, _ => 0
  end.

(** [componentWillUnmount]. Calling the function [onSnapshot] returned
    removes the listener. *)
Definition componentWillUnmount (c : FiltrableList) : FiltrableList :=
  match unsubscribe c with
  | Some _ => with_listening false c
  | None => c
  end.

(** React unmounts the instance: it calls [componentWillUnmount] and from
    then on drops the instance's state updates. *)
Definition unmount (h : Hosted) : Hosted :=
  mkHosted (componentWillUnmount (this h)) false.

(** [handleFilterChange] *)
Definition handleFilterChange (text : string) (c : FiltrableList) : FiltrableList :=
  setState (fun s => mkState (entities s) (Some text) (isRefreshing s) (status s) (error s)) c.

(** [handleCloseFilterPress]; the navigation parameter it also sets is not
    part of the instance. *)
Definition handleCloseFilterPress (c : FiltrableList) : FiltrableList :=
  setState (fun s => mkState (entities s) None (isRefreshing s) (status s) (error s)) c.

(** [componentDidMount] up to its [await]: the listener is registered, its
    unsubscribe function kept, and [refreshEntities] has issued
    [query.get()]. *)
Definition componentDidMount (c : FiltrableList) : FiltrableList :=
  with_pending (pending c ++ [FromComponentDidMount])
    (with_listening true (with_unsubscribe (Some tt) c)).

(** [handleRefresh] up to the [await] of its callback: [isRefreshing] is set
    and [refreshEntities] has issued [query.get()]. *)
Definition handleRefresh (c : FiltrableList) : FiltrableList :=
  with_pending (pending c ++ [FromHandleRefresh])
    (setState (fun s => mkState (entities s) (filter s) true (status s) (error s)) c).

Section Component.

(** [DocumentSnapshot] of the Firestore SDK, and what a rejected
    [query.get()] or the listener's error callback carries. *)
Variables DocumentSnapshot SnapshotError : Type.

(** [this.props.documentSnapshotToEntity] and [this.props.filterEntities].
    The latter is called as [filterEntities(filter!, entity)]: the
    assertion [!] is erased by the compiler, the value of [filter] is
    passed as it is. *)
Variable documentSnapshotToEntity : DocumentSnapshot -> Entity.
Variable props_filterEntities : option string -> Entity -> bool.

(** [@utils/get-error-message-from-firestore-error] and
    [@utils/is-string-empty]. *)
Variable getErrorMessageFromFirestoreError : SnapshotError -> string.
Variable isStringEmpty : option string -> bool.

(** [DocumentChange.type] of the SDK.  The [switch] of [onCollectionUpdate]
    has an empty [default] branch, which no value of this type reaches. *)
Inductive DocumentChangeType : Type := added | removed | modified.

Record DocumentChange : Type := mkDocumentChange {
  type : DocumentChangeType;
  doc : DocumentSnapshot;
}.

Record QuerySnapshot : Type := mkQuerySnapshot {
  docChanges : list DocumentChange;
  docs : list DocumentSnapshot;
}.

(** How a [query.get()] settles. *)
Inductive GetResult : Type :=
| Resolved (snap : QuerySnapshot)
| Rejected (error : SnapshotError).

(** The function wrapped by [memoize]: with an empty filter
    [filteredEntities] is the array passed in, otherwise a fresh array;
    either way it is sorted in place and returned. *)
Definition filterEntities_fn (h : Heap) (entities : ref) (filter : option string)
  : Heap * ref :=
  let '(h1, filteredEntities) :=
    if negb (isStringEmpty filter)
    then alloc h (List.filter (fun entity => props_filterEntities filter entity)
                              (deref h entities))
    else (h, entities) in
  (write h1 filteredEntities (Array_sort compareUpdatedAt (deref h1 filteredEntities)),
   filteredEntities).

(** [this.filterEntities]: the memoized function.  When the arguments are
    those of the latest call the remembered result is returned and the
    function does not run. *)
Definition filterEntities (c : FiltrableList) (entities : ref) (filter : option string)
  : FiltrableList * ref :=
  match memo c with
  | Some m =>
      if bool_decide (lastEntities m = entities /\ lastFilter m = filter)
      then (c, lastResult m)
      else
        let '(h, r) := filterEntities_fn (heap c) entities filter in
        (with_memo (Some (mkMemoCell entities filter r)) (with_heap h c), r)
  | None =>
      let '(h, r) := filterEntities_fn (heap c) entities filter in
      (with_memo (Some (mkMemoCell entities filter r)) (with_heap h c), r)
  end.

(** One iteration of the [forEach] of [onCollectionUpdate], on the local
    array [entities]. *)
Definition applyDocChange (entities : list Entity) (docChange : DocumentChange)
  : list Entity :=
  let entity := documentSnapshotToEntity (doc docChange) in
  match type docChange with
  | added => entities ++ [entity]
  | removed =>
      List.filter (fun e => negb (bool_decide (id e = id entity))) entities
  | modified =>
      List.map (fun e => if bool_decide (id e = id entity) then entity else e)
               entities
  end.

(** [onCollectionUpdate], on an instance that is mounted or not.  The local
    array starts as a copy ([Array.from]) of the state's array and is known
    to nobody else until [setState] stores it, so only the final array is
    put on the heap. *)
Definition onCollectionUpdate_on (isMounted : bool) (querySnapshot : QuerySnapshot)
    (c : FiltrableList) : FiltrableList :=
  let result := fold_left applyDocChange (docChanges querySnapshot) (stateEntities c) in
  let '(h, r) := alloc (heap c) result in
  React_setState isMounted
    (fun s => mkState r (filter s) (isRefreshing s) (status s) (error s))
    (with_heap h c).

(** [onCollectionUpdate] as the feed calls it, on the mounted instance. *)
Definition onCollectionUpdate (querySnapshot : QuerySnapshot) (c : FiltrableList)
  : FiltrableList :=
  onCollectionUpdate_on true querySnapshot c.

(** [onCollectionError], on an instance that is mounted or not. *)
Definition onCollectionError_on (isMounted : bool) (error : SnapshotError)
    (c : FiltrableList) : FiltrableList :=
  let errorMessage := getErrorMessageFromFirestoreError error in
  React_setState isMounted
    (fun s => mkState (entities s) (filter s) (isRefreshing s)
                      STATUS_ERROR (Some errorMessage)) c.

(** [onCollectionError] as the feed calls it, on the mounted instance. *)
Definition onCollectionError (error : SnapshotError) (c : FiltrableList)
  : FiltrableList :=
  onCollectionError_on true error c.

(** [refreshEntities] from the point where [query.get()] has settled, on an
    instance that is mounted or not. *)
Definition refreshEntities_on (isMounted : bool) (settled : GetResult)
    (c : FiltrableList) : FiltrableList :=
  match settled with
  | Resolved snap =>
      let '(h, r) :=
        alloc (heap c)
              (Array_sort compareUpdatedAt (List.map documentSnapshotToEntity (docs snap))) in
      React_setState isMounted
        (fun s => mkState r (filter s) (isRefreshing s) STATUS_SUCCESS (error s))
        (with_heap h c)
  | Rejected error =>
      React_setState isMounted
        (fun s => mkState (entities s) (filter s) (isRefreshing s) STATUS_ERROR
                          (Some (getErrorMessageFromFirestoreError error))) c
  end.

(** [refreshEntities] on the mounted instance. *)
Definition refreshEntities (settled : GetResult) (c : FiltrableList) : FiltrableList :=
  refreshEntities_on true settled c.

(** The continuation of the [await this.refreshEntities()] of
    [componentDidMount] and of [handleRefresh]; the latter then clears
    [isRefreshing].  The two updates of [handleRefresh]'s continuation,
    the one of [refreshEntities] and the later
    [setState({isRefreshing: false})], are applied here one after the other:
    the state between them, which React may render, is the result of
    [refreshEntities] and is no state of its own in [step]. *)
Definition refreshEntities_settled_on (isMounted : bool) (origin : FetchOrigin)
    (settled : GetResult) (c : FiltrableList) : FiltrableList :=
  let c1 := refreshEntities_on isMounted settled c in
  match origin with
  | FromComponentDidMount => c1
  | FromHandleRefresh =>
      React_setState isMounted
        (fun s => mkState (entities s) (filter s) false (status s) (error s)) c1
  end.

(** The continuation on the mounted instance. *)
Definition refreshEntities_settled (origin : FetchOrigin) (settled : GetResult)
    (c : FiltrableList) : FiltrableList :=
  refreshEntities_settled_on true origin settled c.

(** What [renderContent] returns. *)
Inductive Content : Type :=
| ActivityIndicator
| ErrorMessage (message : option string)
| EmptyListMessage
| FlatList (data : ref) (refreshing : bool).

Definition renderContent (c : FiltrableList) : FiltrableList * Content :=
  match status (state c) with
  | STATUS_LOADING => (c, ActivityIndicator)
  | STATUS_ERROR => (c, ErrorMessage (error (state c)))
  | _ =>
      let '(c1, entities) := filterEntities c (entities (state c)) (filter (state c)) in
      if Nat.eqb (length (deref (heap c1) entities)) 0
      then (c1, EmptyListMessage)
      else (c1, FlatList entities (isRefreshing (state c1)))
  end.

(** What can happen to an instance. *)
Inductive Event : Type :=
| Mount
| Unmount
| SnapshotDelivered (querySnapshot : QuerySnapshot)
| SnapshotFailed (error : SnapshotError)
| GetSettled (origin : FetchOrigin) (settled : GetResult)
| RefreshPulled
| FilterChanged (text : string)
| CloseFilterPressed
| Rendered.

(** Removes the first occurrence of [o], if there is one. *)
Fixpoint take_pending (o : FetchOrigin) (p : list FetchOrigin)
  : option (list FetchOrigin) :=
  match p with
  | [] => None
  | o' :: p' =>
      if bool_decide (o' = o) then Some p'
      else option_map (cons o') (take_pending o p')
  end.

(** One event.  The feed calls the listener only while it is registered,
    and only a pending [get()] can settle: otherwise the event cannot
    happen ([None]).  [step] follows the instance as long as React keeps it
    mounted; [Unmount] is the call of [componentWillUnmount], and what is
    still called once React has unmounted the instance acts through
    [invoke], on the unmounted [Hosted] instance. *)
Definition step (ev : Event) (c : FiltrableList) : option FiltrableList :=
  match ev with
  | Mount => Some (componentDidMount c)
  | Unmount => Some (componentWillUnmount c)
  | SnapshotDelivered querySnapshot =>
      if listening c then Some (onCollectionUpdate querySnapshot c) else None
  | SnapshotFailed error =>
      if listening c then Some (onCollectionError error c) else None
  | GetSettled origin settled =>
      match take_pending origin (pending c) with
      | Some p => Some (refreshEntities_settled origin settled (with_pending p c))
      | None => None
      end
  | RefreshPulled => Some (handleRefresh c)
  | FilterChanged text => Some (handleFilterChange text c)
  | CloseFilterPressed => Some (handleCloseFilterPress c)
  | Rendered => Some (fst (renderContent c))
  end.

Fixpoint run (evs : list Event) (c : FiltrableList) : option FiltrableList :=
  match evs with
  | [] => Some c
  | ev :: evs' =>
      match step ev c with
      | Some c' => run evs' c'
      | None => None
      end
  end.

(** What may still be called once the component is done with: the two
    callbacks handed to [query.onSnapshot], by whoever kept them, and the
    continuation of a [query.get()] that settles. *)
Inductive Callback : Type :=
| SnapshotCallback (querySnapshot : QuerySnapshot)
| ErrorCallback (error : SnapshotError)
| GetCallback (origin : FetchOrigin) (settled : GetResult).

(** The callback runs on the instance as React knows it. *)
Definition invoke (callback : Callback) (h : Hosted) : Hosted :=
  mkHosted
    (match callback with
     | SnapshotCallback querySnapshot =>
         onCollectionUpdate_on (mounted h) querySnapshot (this h)
     | ErrorCallback error => onCollectionError_on (mounted h) error (this h)
     | GetCallback origin settled =>
         refreshEntities_settled_on (mounted h) origin settled (this h)
     end)
    (mounted h).

End Component.

Arguments SnapshotCallback {DocumentSnapshot SnapshotError} querySnapshot.
Arguments ErrorCallback {DocumentSnapshot SnapshotError} error.
Arguments GetCallback {DocumentSnapshot SnapshotError} origin settled.
Arguments invoke {DocumentSnapshot SnapshotError} documentSnapshotToEntity
  getErrorMessageFromFirestoreError callback h.
Arguments onCollectionUpdate_on {DocumentSnapshot} documentSnapshotToEntity
  isMounted querySnapshot c.
Arguments onCollectionError_on {SnapshotError} getErrorMessageFromFirestoreError
  isMounted error c.
Arguments refreshEntities_on {DocumentSnapshot SnapshotError}
  documentSnapshotToEntity getErrorMessageFromFirestoreError isMounted settled c.
Arguments refreshEntities_settled_on {DocumentSnapshot SnapshotError}
  documentSnapshotToEntity getErrorMessageFromFirestoreError isMounted origin settled c.
Arguments mkDocumentChange {DocumentSnapshot} type doc.
Arguments type {DocumentSnapshot} d.
Arguments doc {DocumentSnapshot} d.
Arguments mkQuerySnapshot {DocumentSnapshot} docChanges docs.
Arguments docChanges {DocumentSnapshot} q.
Arguments docs {DocumentSnapshot} q.
Arguments Resolved {DocumentSnapshot SnapshotError} snap.
Arguments Rejected {DocumentSnapshot SnapshotError} error.
Arguments Mount {DocumentSnapshot SnapshotError}.
Arguments Unmount {DocumentSnapshot SnapshotError}.
Arguments SnapshotDelivered {DocumentSnapshot SnapshotError} querySnapshot.
Arguments SnapshotFailed {DocumentSnapshot SnapshotError} error.
Arguments GetSettled {DocumentSnapshot SnapshotError} origin settled.
Arguments RefreshPulled {DocumentSnapshot SnapshotError}.
Arguments FilterChanged {DocumentSnapshot SnapshotError} text.
Arguments CloseFilterPressed {DocumentSnapshot SnapshotError}.
Arguments Rendered {DocumentSnapshot SnapshotError}.
Arguments onCollectionUpdate {DocumentSnapshot} documentSnapshotToEntity querySnapshot c.
Arguments applyDocChange {DocumentSnapshot} documentSnapshotToEntity entities docChange.
Arguments onCollectionError {SnapshotError} getErrorMessageFromFirestoreError error c.
Arguments refreshEntities {DocumentSnapshot SnapshotError}
  documentSnapshotToEntity getErrorMessageFromFirestoreError settled c.
Arguments refreshEntities_settled {DocumentSnapshot SnapshotError}
  documentSnapshotToEntity getErrorMessageFromFirestoreError origin settled c.
Arguments step {DocumentSnapshot SnapshotError} documentSnapshotToEntity
  props_filterEntities getErrorMessageFromFirestoreError isStringEmpty ev c.
Arguments run {DocumentSnapshot SnapshotError} documentSnapshotToEntity
  props_filterEntities getErrorMessageFromFirestoreError isStringEmpty evs c.

(** ** The spec's view of the collection *)

(** The spec's [entities]: a mapping from id to entity. *)
Abbreviation EntityMap := (gmap (option string) Entity).

(** The mapping a list of entities stands for. *)
Definition entitiesById (l : list Entity) : EntityMap :=
  list_to_map (List.map (fun e => (id e, e)) l).

(** The entity a list holds for an id: the first one carrying it. *)
Definition findById (i : option string) (l : list Entity) : option Entity :=
  List.find (fun e => bool_decide (id e = i)) l.

(** The spec's [applyDelta], in its words: [added] inserts (a duplicate
    [added] overwrites), [modified] replaces the entity with the matching
    id and does nothing when there is none, [removed] deletes. *)
Definition applyDelta_spec_one (m : EntityMap) (kind : DocumentChangeType) (entity : Entity)
  : EntityMap :=
  match kind with
  | added => <[id entity := entity]> m
  | modified =>
      match m !! id entity with
      | Some _ => <[id entity := entity]> m
      | None => m
      end
  | removed => delete (id entity) m
  end.

Definition applyDelta_spec (m : EntityMap) (changes : list (DocumentChangeType * Entity))
  : EntityMap :=
  fold_left (fun m ch => applyDelta_spec_one m (fst ch) (snd ch)) changes m.

(** Every [added] change of the sequence carries an id the collection does
    not hold at that point. *)
Fixpoint addsAreNew {DocumentSnapshot : Type}
    (documentSnapshotToEntity : DocumentSnapshot -> Entity)
    (entities : list Entity) (changes : list (DocumentChange DocumentSnapshot)) : Prop :=
  match changes with
  | [] => True
  | docChange :: rest =>
      (type docChange = added ->
       ~ In (id (documentSnapshotToEntity (doc docChange))) (List.map id entities))
      /\ addsAreNew documentSnapshotToEntity
           (applyDocChange documentSnapshotToEntity entities docChange) rest
  end.

(** The change as the spec sees it: its kind and its entity. *)
Definition delta {DocumentSnapshot : Type}
    (documentSnapshotToEntity : DocumentSnapshot -> Entity)
    (docChange : DocumentChange DocumentSnapshot) : DocumentChangeType * Entity :=
  (type docChange, documentSnapshotToEntity (doc docChange)).

(** The list holds for every id what the map holds. *)
Definition agrees (l : list Entity) (m : EntityMap) : Prop :=
  forall i, findById i l = m !! i.

(** Timestamps in non-increasing order, wherever both are present. *)
Definition newerFirst (e1 e2 : Entity) : Prop :=
  match updatedAt e1, updatedAt e2 with
  | Some t1, Some t2 => t2 <= t1
  | _, _ => True
  end.

(** The entities of [l] whose [updatedAt] is [t], in the order of [l]. *)
Definition withUpdatedAt (t : option Z) (l : list Entity) : list Entity :=
  List.filter (fun e => bool_decide (updatedAt e = t)) l.

(** ** The sign-up service *)

Section SignUp.

(** What [createUserWithEmailAndPassword] rejects with. *)
Variable AuthError : Type.

(** What a [throw] or a rejection carries: an [Error] built by the
    service, or the backend's own error. *)
Inductive Thrown : Type :=
| JsError (message : string)
| BackendError (e : AuthError).

Variable isStringEmpty : option string -> bool.
Variable getErrorMessageFromFirestoreError : Thrown -> string.

(** The backend: [None] when the account is created, the error
    otherwise. *)
Variable createUserWithEmailAndPassword : option string -> option string -> option AuthError.

(** The calls made to the backend so far. *)
Definition Calls : Type := list (option string * option string).

(** A computation that may throw and that records backend calls. *)
Definition Js (A : Type) : Type := Calls -> (Thrown + A) * Calls.

Definition ret {A : Type} (a : A) : Js A := fun calls => (inr a, calls).

Definition throw {A : Type} (t : Thrown) : Js A := fun calls => (inl t, calls).

Definition bind {A B : Type} (m : Js A) (k : A -> Js B) : Js B :=
  fun calls =>
    match m calls with
    | (inr a, calls') => k a calls'
    | (inl t, calls') => (inl t, calls')
    end.

Definition try_catch {A : Type} (m : Js A) (handler : Thrown -> Js A) : Js A :=
  fun calls =>
    match m calls with
    | (inr a, calls') => (inr a, calls')
    | (inl t, calls') => handler t calls'
    end.

(** [await auth().createUserWithEmailAndPassword(email!, password!)] *)
Definition await_createUser (email password : option string) : Js unit :=
  fun calls =>
    match createUserWithEmailAndPassword email password with
    | None => (inr tt, calls ++ [(email, password)])
    | Some e => (inl (BackendError e), calls ++ [(email, password)])
    end.

Definition when_ (b : bool) (m : Js unit) : Js unit := if b then m else ret tt.

Local Notation "m1 >>> m2" := (bind m1 (fun _ => m2)) (at level 90, right associativity).

(** [signUp]: the result is how the returned promise settles. *)
Definition signUp (email password : option string) : Js unit :=
  try_catch
    (when_ (isStringEmpty email) (throw (JsError "Email is required.")) >>>
     when_ (isStringEmpty password) (throw (JsError "Password is required.")) >>>
     await_createUser email password)
    (fun error => throw (JsError (getErrorMessageFromFirestoreError error))).

End SignUp.

Arguments JsError {AuthError} message.
Arguments BackendError {AuthError} e.
Arguments signUp {AuthError} isStringEmpty getErrorMessageFromFirestoreError
  createUserWithEmailAndPassword email password.

(** ** Derived notions used by the statements *)

(** The spec's candidate set: every entity when the filter is empty, those
    accepted by the caller's predicate otherwise. *)
Definition candidates (isStringEmpty : option string -> bool)
    (props_filterEntities : option string -> Entity -> bool)
    (filter : option string) (l : list Entity) : list Entity :=
  if isStringEmpty filter then l
  else List.filter (fun entity => props_filterEntities filter entity) l.

(** The contents of the array [filterEntities_fn] returns. *)
Definition displaySequence (isStringEmpty : option string -> bool)
    (props_filterEntities : option string -> Entity -> bool)
    (h : Heap) (entities : ref) (filter : option string) : list Entity :=
  let '(h', r) := filterEntities_fn props_filterEntities isStringEmpty h entities filter in
  deref h' r.

(** The references an instance holds point into its heap, and the memo cell
    remembers a result that is still a rearrangement of the candidates of
    its arguments. *)
Definition memoCoherent (isStringEmpty : option string -> bool)
    (props_filterEntities : option string -> Entity -> bool)
    (c : FiltrableList) : Prop :=
  (entities (state c) < length (heap c))%nat /\
  match memo c with
  | None => True
  | Some m =>
      (lastEntities m < length (heap c))%nat /\
      (lastResult m < length (heap c))%nat /\
      Permutation (deref (heap c) (lastResult m))
        (candidates isStringEmpty props_filterEntities (lastFilter m)
           (deref (heap c) (lastEntities m)))
  end.

(** [keyExtractor]: the list key of an entity is its [id]; the assertion
    [entity.id!] is erased, an absent [id] gives an absent key. *)
Definition keyExtractor (entity : Entity) : option string := id entity.

(** ** Sample collaborators and inputs *)

Module Sample.

(** Documents that already are entities. *)
Definition toEntity (d : Entity) : Entity := d.

(** An [isStringEmpty] that accepts exactly the absent and the empty
    string. *)
Definition isStringEmpty (s : option string) : bool :=
  match s with
  | None => true
  | Some s => bool_decide (s = "")
  end.

(** A predicate that keeps the entities whose payload is the filter. *)
Definition matches (filter : option string) (entity : Entity) : bool :=
  bool_decide (Some (data entity) = filter).

(** Errors that are their own message. *)
Definition message (error : string) : string := error.

Definition word1 : Entity := mkEntity (Some "1") (Some 1) "one".
Definition word2 : Entity := mkEntity (Some "2") (Some 2) "two".
Definition word1' : Entity := mkEntity (Some "1") (Some 3) "uno".
Definition word5 : Entity := mkEntity (Some "5") (Some 5) "five".
Definition draftA : Entity := mkEntity (Some "a") None "draft a".
Definition draftB : Entity := mkEntity (Some "b") None "draft b".

Definition snapshotOf (changes : list (DocumentChange Entity)) : QuerySnapshot Entity :=
  mkQuerySnapshot changes [].

Definition emptyResult : QuerySnapshot Entity := mkQuerySnapshot [] [].

Definition step := step (SnapshotError := string) toEntity matches message isStringEmpty.
Definition run := run (SnapshotError := string) toEntity matches message isStringEmpty.

(** An instance that is mounted and whose first fetch has succeeded. *)
Definition mounted : FiltrableList :=
  default newFiltrableList
    (run [Mount; GetSettled FromComponentDidMount (Resolved emptyResult)]
         newFiltrableList).

(** Two entities arrive oldest first, then a filter is typed. *)
Definition twoWordsEvents : list (Event Entity string) :=
  [Mount;
   GetSettled FromComponentDidMount (Resolved emptyResult);
   SnapshotDelivered (snapshotOf [mkDocumentChange added word1;
                                  mkDocumentChange added word2]);
   FilterChanged "two"].

Definition twoWords : FiltrableList :=
  default newFiltrableList (run twoWordsEvents newFiltrableList).

(** The listener fails while the first fetch is pending. *)
Definition failedEvents : list (Event Entity string) :=
  [Mount; SnapshotFailed "boom"].

Definition failed : FiltrableList :=
  default newFiltrableList (run failedEvents newFiltrableList).

(** A word arrives through the listener. *)
Definition wordEvents : list (Event string string) :=
  [Mount; SnapshotDelivered (mkQuerySnapshot [mkDocumentChange added "cat"] [])].

(** Documents that are a word: the word is the id and the payload. *)
Definition wordToEntity (word : string) : Entity := mkEntity (Some word) None word.

(** A backend that refuses every account. *)
Definition refuseUser (email password : option string) : option string :=
  Some "auth/email-already-in-use".

(** The backend of [signUp]: it accepts every account. *)
Definition createUser (email password : option string) : option string := None.

Definition authMessage (t : Thrown string) : string :=
  match t with
  | JsError m => m
  | BackendError e => e
  end.

End Sample.

End Model.

Import Model.

(** * Properties *)

(** ** The sort *)

Section Sorting.

Context {A : Type} (comparefn : A -> A -> Z).

Lemma Array_sort_insert_perm x l :
  Permutation (Array_sort_insert comparefn x l) (x :: l).
Proof.
  induction l as [|y l IH]; simpl; [reflexivity|].
  destruct (0 <? comparefn x y); [|reflexivity].
  rewrite IH. apply perm_swap.
Qed.

Lemma Array_sort_perm l : Permutation (Array_sort comparefn l) l.
Proof.
  induction l as [|x l IH]; simpl; [reflexivity|].
  rewrite Array_sort_insert_perm. now constructor.
Qed.

(** Elements of a class that the comparator never orders strictly keep
    their relative order. *)
Lemma Array_sort_insert_class (p : A -> bool) x l :
  (forall y, p x = true -> p y = true -> comparefn x y <= 0) ->
  List.filter p (Array_sort_insert comparefn x l) = List.filter p (x :: l).
Proof.
  intros Hclass. induction l as [|y l IH]; [reflexivity|].
  simpl. destruct (0 <? comparefn x y) eqn:Hc; [|reflexivity].
  simpl. rewrite IH. simpl.
  destruct (p x) eqn:Hx, (p y) eqn:Hy; try reflexivity.
  apply Z.ltb_lt in Hc. specialize (Hclass y eq_refl Hy). lia.
Qed.

Lemma Array_sort_class (p : A -> bool) l :
  (forall x y, p x = true -> p y = true -> comparefn x y <= 0) ->
  List.filter p (Array_sort comparefn l) = List.filter p l.
Proof.
  intros Hclass. induction l as [|x l IH]; [reflexivity|].
  simpl Array_sort. rewrite Array_sort_insert_class by (intros; now apply Hclass).
  simpl. now rewrite IH.
Qed.

End Sorting.

(** ** The heap *)

Lemma deref_alloc h v : deref (fst (alloc h v)) (snd (alloc h v)) = v.
Proof.
  unfold deref, alloc. cbn [fst snd].
  rewrite lookup_app_r by lia. now rewrite Nat.sub_diag.
Qed.

Lemma deref_alloc_old h v r :
  (r < length h)%nat -> deref (fst (alloc h v)) r = deref h r.
Proof.
  intros Hr. unfold deref, alloc. cbn [fst snd]. now rewrite lookup_app_l.
Qed.

Lemma length_alloc h v : length (fst (alloc h v)) = S (length h).
Proof. unfold alloc. cbn [fst]. rewrite length_app. simpl. lia. Qed.

Lemma deref_write_other h r r' v : r <> r' -> deref (write h r v) r' = deref h r'.
Proof.
  intros Hne. unfold deref, write. now rewrite list_lookup_insert_ne.
Qed.

Lemma deref_write_valid h r v : (r < length h)%nat -> deref (write h r v) r = v.
Proof.
  intros Hr. unfold deref, write. now rewrite list_lookup_insert_eq.
Qed.

Lemma deref_invalid h r : (length h <= r)%nat -> deref h r = [].
Proof.
  intros Hr. unfold deref. now rewrite lookup_ge_None_2.
Qed.

Lemma length_write h r v : length (write h r v) = length h.
Proof. unfold write. apply length_insert. Qed.

(** Sorting an array in place leaves the sorted contents behind its
    reference, whatever the reference. *)
Lemma deref_sorted_in_place h r :
  deref (write h r (Array_sort compareUpdatedAt (deref h r))) r
  = Array_sort compareUpdatedAt (deref h r).
Proof.
  destruct (decide (r < length h)%nat) as [Hr|Hr].
  - now apply deref_write_valid.
  - unfold write. rewrite list_insert_ge by lia.
    rewrite deref_invalid by lia. reflexivity.
Qed.

(** ** [compareUpdatedAt] *)

Lemma compareUpdatedAt_absent e1 e2 :
  updatedAt e1 = None \/ updatedAt e2 = None -> compareUpdatedAt e1 e2 = 0.
Proof.
  unfold compareUpdatedAt. intros [H|H]; rewrite H; [destruct (updatedAt e2)|]; reflexivity.
Qed.

Lemma compareUpdatedAt_same_class t e1 e2 :
  updatedAt e1 = t -> updatedAt e2 = t -> compareUpdatedAt e1 e2 = 0.
Proof.
  unfold compareUpdatedAt. intros H1 H2. rewrite H1, H2. destruct t; lia.
Qed.

(** In this model of the sort, entities with the same [updatedAt] keep
    their relative order in every array. *)
Lemma Array_sort_withUpdatedAt t l :
  withUpdatedAt t (Array_sort compareUpdatedAt l) = withUpdatedAt t l.
Proof.
  unfold withUpdatedAt. apply Array_sort_class.
  intros x y Hx Hy. apply bool_decide_eq_true in Hx, Hy.
  rewrite (compareUpdatedAt_same_class t x y) by congruence. lia.
Qed.

Lemma newerFirst_insert x l :
  Forall (fun e => is_Some (updatedAt e)) (x :: l) ->
  StronglySorted newerFirst l ->
  StronglySorted newerFirst (Array_sort_insert compareUpdatedAt x l).
Proof.
  intros Hall Hs. induction Hs as [|y l Hs IH Hy]; simpl.
  - repeat constructor.
  - inversion Hall as [|? ? [tx Hx] Hrest]; subst.
    inversion Hrest as [|? ? [ty Hty] Hl]; subst.
    destruct (0 <? compareUpdatedAt x y) eqn:Hc.
    + apply Z.ltb_lt in Hc. constructor.
      * apply IH. now constructor.
      * rewrite (Array_sort_insert_perm compareUpdatedAt x l).
        constructor; [|assumption].
        unfold newerFirst, compareUpdatedAt in *. rewrite Hx, Hty in *. lia.
    + apply Z.ltb_ge in Hc. constructor; [now constructor|].
      constructor.
      * unfold newerFirst, compareUpdatedAt in *. rewrite Hx, Hty in *. lia.
      * rewrite Forall_forall in Hy, Hl |- *. intros z Hz.
        specialize (Hy z Hz). destruct (Hl z Hz) as [tz Htz].
        unfold newerFirst, compareUpdatedAt in *. rewrite Hx, Hty, Htz in *. lia.
Qed.

Lemma Array_sort_newerFirst l :
  Forall (fun e => is_Some (updatedAt e)) l ->
  StronglySorted newerFirst (Array_sort compareUpdatedAt l).
Proof.
  induction l as [|x l IH]; intros Hall; simpl; [constructor|].
  apply newerFirst_insert.
  - inversion Hall; subst. constructor; [assumption|].
    now rewrite (Array_sort_perm compareUpdatedAt l).
  - apply IH. now inversion Hall.
Qed.

Lemma newerFirst_all_absent l :
  Forall (fun e => updatedAt e = None) l -> StronglySorted newerFirst l.
Proof.
  induction 1 as [|x l Hx Hl IH]; constructor; [assumption|].
  rewrite Forall_forall. intros y _. unfold newerFirst. now rewrite Hx.
Qed.

Section DisplaySequence.

Variable props_filterEntities : option string -> Entity -> bool.
Variable isStringEmpty : option string -> bool.

Local Abbreviation candidates := (candidates isStringEmpty props_filterEntities).
Local Abbreviation displaySequence := (displaySequence isStringEmpty props_filterEntities).
Local Abbreviation filterEntities_fn := (filterEntities_fn props_filterEntities isStringEmpty).

(** The array [filterEntities_fn] returns holds the sorted candidates. *)
Lemma displaySequence_sorted_candidates h ents f :
  displaySequence h ents f = Array_sort compareUpdatedAt (candidates f (deref h ents)).
Proof.
  unfold displaySequence, Model.displaySequence, Model.filterEntities_fn,
    Model.candidates.
  destruct (isStringEmpty f); simpl.
  - apply deref_sorted_in_place.
  - unfold alloc.
    set (v := List.filter _ _).
    pose proof (deref_alloc h v) as Hv. unfold alloc in Hv. simpl in Hv.
    rewrite Hv. apply deref_write_valid. rewrite length_app. simpl. lia.
Qed.

(** With a non-empty filter the arrays that existed before the call are
    left as they were: the sort works on the array [filter] returned. *)
Lemma filterEntities_fn_filtering_keeps_arrays h ents f r :
  isStringEmpty f = false -> (r < length h)%nat ->
  deref (fst (filterEntities_fn h ents f)) r = deref h r.
Proof.
  intros Hf Hr. unfold Model.filterEntities_fn. rewrite Hf. simpl.
  rewrite deref_write_other by lia.
  now apply (deref_alloc_old h).
Qed.

(** With an empty filter the array passed in is the one that is sorted. *)
Lemma filterEntities_fn_empty_filter_sorts_argument h ents f :
  isStringEmpty f = true ->
  snd (filterEntities_fn h ents f) = ents /\
  deref (fst (filterEntities_fn h ents f)) ents
  = Array_sort compareUpdatedAt (deref h ents).
Proof.
  intros Hf. unfold Model.filterEntities_fn. rewrite Hf. simpl.
  split; [reflexivity|apply deref_sorted_in_place].
Qed.

End DisplaySequence.

(** ** The display sequence: order *)

Section DisplayOrder.

Variable props_filterEntities : option string -> Entity -> bool.
Variable isStringEmpty : option string -> bool.

Local Abbreviation candidates := (candidates isStringEmpty props_filterEntities).
Local Abbreviation displaySequence := (displaySequence isStringEmpty props_filterEntities).

(** C6 (amended): the comparator yields equal whenever an [updatedAt] is
    absent on either side; and when the candidates all carry an
    [updatedAt], or none of them does, the display sequence is in
    descending [updatedAt] order and entities with the same (or with no)
    [updatedAt] keep the relative order they had among the candidates. *)
Theorem displaySequence_descending_and_stable h ents f :
  Forall (fun e => is_Some (updatedAt e)) (candidates f (deref h ents)) \/
  Forall (fun e => updatedAt e = None) (candidates f (deref h ents)) ->
  (forall e1 e2, updatedAt e1 = None \/ updatedAt e2 = None ->
                 compareUpdatedAt e1 e2 = 0) /\
  StronglySorted newerFirst (displaySequence h ents f) /\
  (forall t, withUpdatedAt t (displaySequence h ents f)
             = withUpdatedAt t (candidates f (deref h ents))).
Proof.
  intros Huniform. rewrite displaySequence_sorted_candidates.
  split; [exact compareUpdatedAt_absent|]. split.
  - destruct Huniform as [Hall|Hnone].
    + now apply Array_sort_newerFirst.
    + apply newerFirst_all_absent.
      now rewrite (Array_sort_perm compareUpdatedAt).
  - intros t. apply Array_sort_withUpdatedAt.
Qed.

End DisplayOrder.

(** With timestamps only, the sort is the descending stable sort. *)
Lemma displaySequence_descending_and_stable_witness :
  let l := [Sample.word1; Sample.word2; Sample.word1'] in
  (Forall (fun e => is_Some (updatedAt e))
          (candidates Sample.isStringEmpty Sample.matches None (deref [l] 0%nat)) \/
   Forall (fun e => updatedAt e = None)
          (candidates Sample.isStringEmpty Sample.matches None (deref [l] 0%nat))) /\
  StronglySorted newerFirst
    (displaySequence Sample.isStringEmpty Sample.matches [l] 0%nat None).
Proof.
  assert (H : Forall (fun e => is_Some (updatedAt e))
                (candidates Sample.isStringEmpty Sample.matches None
                   (deref [[Sample.word1; Sample.word2; Sample.word1']] 0%nat))).
  { simpl. repeat constructor; eexists; reflexivity. }
  split; [left; exact H|].
  exact (proj1 (proj2 (displaySequence_descending_and_stable
                         Sample.matches Sample.isStringEmpty _ _ _ (or_introl H)))).
Defined.

(** C6 (counterexample): two entities without [updatedAt] between an older
    and a newer one.  Every comparison the sort makes involves an absent
    timestamp or is never made, the array stays as it is, and the older
    entity is displayed before the newer one. *)
Lemma displaySequence_not_descending :
  let l := [Sample.word1; Sample.draftA; Sample.draftB; Sample.word5] in
  displaySequence Sample.isStringEmpty Sample.matches [l] 0%nat None = l /\
  ~ StronglySorted newerFirst
      (displaySequence Sample.isStringEmpty Sample.matches [l] 0%nat None).
Proof.
  split; [reflexivity|].
  intros Hs. apply StronglySorted_inv in Hs as [_ Hall].
  rewrite Forall_forall in Hall.
  specialize (Hall Sample.word5). unfold newerFirst in Hall. simpl in Hall.
  assert (5 <= 1) by (apply Hall; repeat (first [left; reflexivity | right])).
  lia.
Qed.

(** ** The handlers *)

Section Handlers.

Variables DocumentSnapshot SnapshotError : Type.
Variable documentSnapshotToEntity : DocumentSnapshot -> Entity.
Variable props_filterEntities : option string -> Entity -> bool.
Variable getErrorMessageFromFirestoreError : SnapshotError -> string.
Variable isStringEmpty : option string -> bool.

Local Abbreviation onCollectionUpdate := (onCollectionUpdate documentSnapshotToEntity).
Local Abbreviation applyDocChange := (applyDocChange documentSnapshotToEntity).
Local Abbreviation onCollectionError :=
  (onCollectionError getErrorMessageFromFirestoreError).
Local Abbreviation filterEntities := (filterEntities props_filterEntities isStringEmpty).

(** [onCollectionUpdate] stores the fold of the changes over the array
    the state held. *)
Lemma stateEntities_onCollectionUpdate querySnapshot c :
  stateEntities (onCollectionUpdate querySnapshot c)
  = fold_left applyDocChange (docChanges querySnapshot) (stateEntities c).
Proof.
  unfold Model.onCollectionUpdate, Model.onCollectionUpdate_on, React_setState.
  set (result := fold_left _ _ _).
  pose proof (deref_alloc (heap c) result) as Hd.
  destruct (alloc (heap c) result) as [h r]. exact Hd.
Qed.

(** C7: when the feed's error callback fires, [status] becomes
    [STATUS_ERROR], [error] becomes the translated message, and the
    entities are what they were: the state refers to the same array and
    no array has changed. *)
Theorem onCollectionError_keeps_entities error c :
  status (state (onCollectionError error c)) = STATUS_ERROR /\
  Model.error (state (onCollectionError error c))
    = Some (getErrorMessageFromFirestoreError error) /\
  entities (state (onCollectionError error c)) = entities (state c) /\
  heap (onCollectionError error c) = heap c /\
  stateEntities (onCollectionError error c) = stateEntities c.
Proof. repeat split. Qed.

Lemma modified_unknown_id entity l :
  ~ In (id entity) (List.map id l) ->
  List.map (fun e => if bool_decide (id e = id entity) then entity else e) l = l.
Proof.
  induction l as [|x l IH]; intros Hnot; [reflexivity|].
  simpl in *. rewrite IH by tauto.
  rewrite bool_decide_eq_false_2 by tauto. reflexivity.
Qed.

(** C8: a [modified] change whose id no entity of the collection carries
    changes nothing: the handler returns, the collection it stores has the
    same entities in the same order (so none is inserted and none is
    altered), and the other state fields are untouched. *)
Theorem modified_unknown_id_is_noop c d others :
  ~ In (id (documentSnapshotToEntity d)) (List.map id (stateEntities c)) ->
  let c' := onCollectionUpdate (mkQuerySnapshot [mkDocumentChange modified d] others) c in
  applyDocChange (stateEntities c) (mkDocumentChange modified d) = stateEntities c /\
  stateEntities c' = stateEntities c /\
  filter (state c') = filter (state c) /\
  status (state c') = status (state c) /\
  Model.error (state c') = Model.error (state c).
Proof.
  intros Hnot c'.
  assert (Hone : applyDocChange (stateEntities c) (mkDocumentChange modified d)
                 = stateEntities c).
  { unfold Model.applyDocChange. simpl. now apply modified_unknown_id. }
  split; [exact Hone|]. split.
  - unfold c'. rewrite stateEntities_onCollectionUpdate. simpl. exact Hone.
  - unfold c', Model.onCollectionUpdate, Model.onCollectionUpdate_on, React_setState.
    destruct (alloc _ _). repeat split.
Qed.

(** After a call, the memo cell holds the call's arguments and result. *)
Lemma filterEntities_remembers c ents f :
  memo (fst (filterEntities c ents f))
  = Some (mkMemoCell ents f (snd (filterEntities c ents f))).
Proof.
  unfold Model.filterEntities.
  destruct (memo c) as [m|] eqn:Hm.
  - case_bool_decide as Hargs.
    + simpl. rewrite Hm. destruct m as [e' f' r']; simpl in *.
      destruct Hargs as [-> ->]. reflexivity.
    + destruct (filterEntities_fn _ _ _ _ _) as [h r]. reflexivity.
  - destruct (filterEntities_fn _ _ _ _ _) as [h r]. reflexivity.
Qed.

(** A call with the remembered arguments changes nothing and returns the
    remembered array. *)
Lemma filterEntities_hit c ents f r :
  memo c = Some (mkMemoCell ents f r) -> filterEntities c ents f = (c, r).
Proof.
  intros Hm. unfold Model.filterEntities. rewrite Hm. simpl.
  now rewrite bool_decide_eq_true_2.
Qed.

(** C9: when [handleFilterChange] is called twice with the same text and
    the display sequence is computed after each call, the second
    [filterEntities] call returns the very array object the first one
    returned, and allocates and changes nothing. *)
Theorem same_filter_same_array c text :
  let c1 := handleFilterChange text c in
  let call1 := filterEntities c1 (entities (state c1)) (filter (state c1)) in
  let c3 := handleFilterChange text (fst call1) in
  let call2 := filterEntities c3 (entities (state c3)) (filter (state c3)) in
  snd call2 = snd call1 /\ heap (fst call2) = heap (fst call1).
Proof.
  intros c1 call1 c3 call2.
  pose proof (filterEntities_remembers c1 (entities (state c1)) (filter (state c1)))
    as Hm. fold call1 in Hm.
  assert (Hents : entities (state (fst call1)) = entities (state c1)).
  { unfold call1, Model.filterEntities.
    destruct (memo c1) as [m|]; [case_bool_decide|];
      try destruct (filterEntities_fn _ _ _ _ _); reflexivity. }
  assert (Hhit : call2 = (c3, snd call1)).
  { unfold call2. apply filterEntities_hit.
    unfold c3. simpl. rewrite Hm. simpl. now rewrite Hents. }
  rewrite Hhit. split; reflexivity.
Qed.

End Handlers.

(** C8 (witness): a change to an id the collection never saw. *)
Lemma modified_unknown_id_is_noop_witness :
  ~ In (id (Sample.toEntity Sample.word2))
       (List.map id (stateEntities
          (onCollectionUpdate Sample.toEntity
             (Sample.snapshotOf [mkDocumentChange added Sample.word1]) Sample.mounted))) /\
  stateEntities
    (onCollectionUpdate Sample.toEntity
       (mkQuerySnapshot [mkDocumentChange modified Sample.word2] [])
       (onCollectionUpdate Sample.toEntity
          (Sample.snapshotOf [mkDocumentChange added Sample.word1]) Sample.mounted))
  = [Sample.word1].
Proof.
  assert (H : ~ In (id (Sample.toEntity Sample.word2))
                (List.map id (stateEntities
                   (onCollectionUpdate Sample.toEntity
                      (Sample.snapshotOf [mkDocumentChange added Sample.word1])
                      Sample.mounted)))).
  { simpl. intros [Heq|[]]. discriminate Heq. }
  split; [exact H|].
  exact (proj1 (proj2 (modified_unknown_id_is_noop _ Sample.toEntity _ _ [] H))).
Defined.

(** C5: with no filter, computing the display sequence reorders the array
    the state holds.  Two entities arrive oldest first; once the list has
    been rendered, [this.state.entities] (the same array object as
    before) has them newest first. *)
Theorem render_reorders_state_array :
  let c :=
    onCollectionUpdate Sample.toEntity
      (Sample.snapshotOf [mkDocumentChange added Sample.word1;
                          mkDocumentChange added Sample.word2]) Sample.mounted in
  let c' := fst (renderContent Sample.matches Sample.isStringEmpty c) in
  stateEntities c = [Sample.word1; Sample.word2] /\
  state c' = state c /\
  stateEntities c' = [Sample.word2; Sample.word1].
Proof. repeat split. Qed.

(** ** Lifecycle and status *)

Section Lifecycle.

Variables DocumentSnapshot SnapshotError : Type.
Variable documentSnapshotToEntity : DocumentSnapshot -> Entity.
Variable props_filterEntities : option string -> Entity -> bool.
Variable getErrorMessageFromFirestoreError : SnapshotError -> string.
Variable isStringEmpty : option string -> bool.

Local Abbreviation onCollectionUpdate := (onCollectionUpdate documentSnapshotToEntity).
Local Abbreviation onCollectionError :=
  (onCollectionError getErrorMessageFromFirestoreError).
Local Abbreviation refreshEntities_settled :=
  (refreshEntities_settled documentSnapshotToEntity getErrorMessageFromFirestoreError).
Local Abbreviation filterEntities := (filterEntities props_filterEntities isStringEmpty).
Local Abbreviation renderContent := (renderContent props_filterEntities isStringEmpty).
Local Abbreviation step :=
  (step documentSnapshotToEntity props_filterEntities
        getErrorMessageFromFirestoreError isStringEmpty).

Lemma state_filterEntities c ents f : state (fst (filterEntities c ents f)) = state c.
Proof.
  unfold Model.filterEntities.
  destruct (memo c) as [m|]; [case_bool_decide|];
    try destruct (filterEntities_fn _ _ _ _ _); reflexivity.
Qed.

Lemma state_renderContent c : state (fst (renderContent c)) = state c.
Proof.
  unfold Model.renderContent.
  pose proof (state_filterEntities c (entities (state c)) (filter (state c))) as Hf.
  destruct (status (state c)); try reflexivity;
    destruct (filterEntities _ _ _) as [c1 r]; simpl in Hf;
    destruct (Nat.eqb _ _); exact Hf.
Qed.

Lemma take_pending_last o p : is_Some (take_pending o (p ++ [o])).
Proof.
  induction p as [|o' p IH]; simpl.
  - rewrite bool_decide_eq_true_2 by reflexivity. eexists; reflexivity.
  - case_bool_decide; [eexists; reflexivity|].
    destruct IH as [q ->]. eexists; reflexivity.
Qed.

(** [componentWillUnmount] changes no state field and no array; it removes
    the feed's listener when an unsubscribe function was stored, and does
    nothing otherwise or when called again; once the listener is removed
    the feed delivers neither changes nor errors. *)
Lemma componentWillUnmount_only_unsubscribes c :
  let c' := componentWillUnmount c in
  state c' = state c /\ heap c' = heap c /\
  listening c' = match unsubscribe c with Some _ => false | None => listening c end /\
  componentWillUnmount c' = c' /\
  (forall querySnapshot,
      step (SnapshotDelivered querySnapshot) c'
      = match unsubscribe c with
        | Some _ => None
        | None => step (SnapshotDelivered querySnapshot) c
        end) /\
  (forall error,
      step (SnapshotFailed error) c'
      = match unsubscribe c with
        | Some _ => None
        | None => step (SnapshotFailed error) c
        end).
Proof.
  unfold componentWillUnmount.
  destruct (unsubscribe c) as [u|] eqn:Hu.
  - repeat split. simpl. now rewrite Hu.
  - rewrite Hu. repeat split.
Qed.

(** C4 (amended): while [status] is [STATUS_ERROR], the only event that
    changes it is a [query.get()] that resolves, whichever call of
    [refreshEntities] issued it, and it sets [STATUS_SUCCESS].
    [handleRefresh] does not touch [status]: it sets [isRefreshing]; when
    its fetch settles, [status] is [STATUS_SUCCESS] or [STATUS_ERROR]
    according to the outcome and [isRefreshing] is cleared. *)
Theorem error_left_only_by_resolved_fetch c :
  status (state c) = STATUS_ERROR ->
  (forall ev c',
      step ev c = Some c' -> status (state c') <> STATUS_ERROR ->
      exists origin snap,
        ev = GetSettled origin (Resolved snap) /\ status (state c') = STATUS_SUCCESS) /\
  (status (state (handleRefresh c)) = STATUS_ERROR /\
   isRefreshing (state (handleRefresh c)) = true) /\
  (forall settled,
      exists c',
        step (GetSettled FromHandleRefresh settled) (handleRefresh c) = Some c' /\
        status (state c')
        = match settled with
          | Resolved _ => STATUS_SUCCESS
          | Rejected _ => STATUS_ERROR
          end /\
        isRefreshing (state c') = false).
Proof.
  intros Herr. split; [|split].
  - intros ev c' Hstep Hleft.
    destruct ev as [| |qs|e|origin settled| |text| |]; simpl in Hstep.
    + injection Hstep as <-. now destruct Hleft.
    + injection Hstep as <-. destruct Hleft.
      unfold componentWillUnmount. now destruct (unsubscribe c).
    + destruct (listening c); [|discriminate]. injection Hstep as <-.
      destruct Hleft. unfold Model.onCollectionUpdate, Model.onCollectionUpdate_on,
                        React_setState.
      destruct (alloc _ _). exact Herr.
    + destruct (listening c); [|discriminate]. injection Hstep as <-.
      now destruct Hleft.
    + destruct (take_pending origin (pending c)) as [p|]; [|discriminate].
      injection Hstep as <-. destruct settled as [snap|e].
      * exists origin, snap. split; [reflexivity|].
        unfold Model.refreshEntities_settled, refreshEntities,
          Model.refreshEntities_settled_on, Model.refreshEntities_on, React_setState.
        destruct (alloc _ _). now destruct origin.
      * destruct Hleft. now destruct origin.
    + injection Hstep as <-. now destruct Hleft.
    + injection Hstep as <-. now destruct Hleft.
    + injection Hstep as <-. now destruct Hleft.
    + injection Hstep as <-. destruct Hleft.
      now rewrite state_renderContent.
  - split; [exact Herr|reflexivity].
  - intros settled. simpl.
    destruct (take_pending_last FromHandleRefresh (pending c)) as [p Hp].
    unfold handleRefresh at 1. simpl. rewrite Hp.
    eexists. split; [reflexivity|].
    unfold Model.refreshEntities_settled, refreshEntities,
      Model.refreshEntities_settled_on, Model.refreshEntities_on, React_setState.
    destruct settled as [snap|e]; [destruct (alloc _ _)|]; split; reflexivity.
Qed.

End Lifecycle.

(** ** After the unmount *)

Section Teardown.

Variables DocumentSnapshot SnapshotError : Type.
Variable documentSnapshotToEntity : DocumentSnapshot -> Entity.
Variable getErrorMessageFromFirestoreError : SnapshotError -> string.

Local Abbreviation invoke :=
  (invoke documentSnapshotToEntity getErrorMessageFromFirestoreError).

(** On an unmounted instance a callback writes no instance field; all it
    may leave behind is an array nobody refers to. *)
Lemma invoke_unmounted callback h :
  mounted h = false ->
  mounted (invoke callback h) = false /\
  state (this (invoke callback h)) = state (this h) /\
  listening (this (invoke callback h)) = listening (this h) /\
  (length (heap (this h)) <= length (heap (this (invoke callback h))))%nat /\
  (forall r, (r < length (heap (this h)))%nat ->
             deref (heap (this (invoke callback h))) r = deref (heap (this h)) r).
Proof.
  intros Hm.
  assert (Hgrown : forall v,
             (length (heap (this h)) <= length (fst (alloc (heap (this h)) v)))%nat /\
             (forall r, (r < length (heap (this h)))%nat ->
                        deref (fst (alloc (heap (this h)) v)) r = deref (heap (this h)) r)).
  { intros v. split; [rewrite length_alloc; lia|].
    intros r Hr. now apply deref_alloc_old. }
  unfold Model.invoke. rewrite Hm. split; [reflexivity|].
  destruct callback as [querySnapshot|e|origin settled]; simpl.
  - unfold onCollectionUpdate_on, React_setState.
    destruct (Hgrown (fold_left (applyDocChange documentSnapshotToEntity)
                        (docChanges querySnapshot) (stateEntities (this h))))
      as [Hlen Hold].
    repeat split; assumption.
  - split; [reflexivity|]. split; [reflexivity|]. split; [lia|reflexivity].
  - unfold refreshEntities_settled_on, refreshEntities_on, React_setState.
    destruct settled as [snap|e].
    + destruct (Hgrown (Array_sort compareUpdatedAt
                          (List.map documentSnapshotToEntity (docs snap))))
        as [Hlen Hold].
      destruct origin; repeat split; assumption.
    + destruct origin;
        (split; [reflexivity|]; split; [reflexivity|]; split; [lia|reflexivity]).
Qed.

(** C3: once React has unmounted the instance, teardown having run,
    nothing that is called afterwards alters the state.  Whatever callbacks
    are invoked, in any number and order, the captured change handler, the
    captured error handler, the continuation of a fetch that was pending,
    the state is the one from before the teardown: [entities] refers to the
    same array, which holds the same entities, and [status], [filter] and
    [error] are unchanged; and the feed's listener is removed when one was
    registered. *)
Theorem teardown_stops_every_state_update
    (callbacks : list (Callback DocumentSnapshot SnapshotError)) (h : Hosted) :
  let h' := fold_left (fun h callback => invoke callback h) callbacks (unmount h) in
  mounted h' = false /\
  state (this h') = state (this h) /\
  (forall r, (r < length (heap (this h)))%nat ->
             deref (heap (this h')) r = deref (heap (this h)) r) /\
  ((entities (state (this h)) < length (heap (this h)))%nat ->
   stateEntities (this h') = stateEntities (this h)) /\
  listening (this h')
  = match unsubscribe (this h) with Some _ => false | None => listening (this h) end.
Proof.
  intros h'.
  assert (Hlate : forall calls h0,
             mounted h0 = false ->
             let h1 := fold_left (fun h callback => invoke callback h) calls h0 in
             mounted h1 = false /\
             state (this h1) = state (this h0) /\
             listening (this h1) = listening (this h0) /\
             (forall r, (r < length (heap (this h0)))%nat ->
                        deref (heap (this h1)) r = deref (heap (this h0)) r)).
  { induction calls as [|callback calls IH]; intros h0 Hm; simpl.
    - split; [exact Hm|]. split; [reflexivity|]. split; reflexivity.
    - destruct (invoke_unmounted callback h0 Hm) as (Hm1 & Hs1 & Hl1 & Hlen1 & Hold1).
      destruct (IH _ Hm1) as (Hm2 & Hs2 & Hl2 & Hold2).
      split; [exact Hm2|]. split; [congruence|]. split; [congruence|].
      intros r Hr. rewrite Hold2 by lia. now apply Hold1. }
  destruct (Hlate callbacks (unmount h) eq_refl) as (Hm & Hs & Hl & Hold).
  fold h' in Hm, Hs, Hl, Hold.
  assert (Hunmount :
    state (componentWillUnmount (this h)) = state (this h) /\
    heap (componentWillUnmount (this h)) = heap (this h) /\
    listening (componentWillUnmount (this h))
    = match unsubscribe (this h) with Some _ => false | None => listening (this h) end).
  { unfold componentWillUnmount. destruct (unsubscribe (this h)); repeat split. }
  destruct Hunmount as (Hstate & Hheap & Hlisten).
  simpl in Hs, Hl, Hold.
  split; [exact Hm|]. split; [congruence|].
  assert (Hcells : forall r, (r < length (heap (this h)))%nat ->
                             deref (heap (this h')) r = deref (heap (this h)) r).
  { intros r Hr. rewrite Hold by (rewrite Hheap; exact Hr). now rewrite Hheap. }
  split; [exact Hcells|]. split.
  - intros Hvalid. unfold stateEntities. rewrite Hs, Hstate. now apply Hcells.
  - rewrite Hl. exact Hlisten.
Qed.

End Teardown.

(** C3 (witness): the instance is unmounted while its first fetch is
    pending; then the error callback, the change callback and the fetch's
    continuation are called.  The state stays the initial one, where the same
    callbacks on the instance still mounted end in [STATUS_SUCCESS]. *)
Lemma teardown_stops_every_state_update_witness :
  let h := mkHosted (componentDidMount newFiltrableList) true in
  let callbacks :=
    [ErrorCallback "boom";
     SnapshotCallback (Sample.snapshotOf [mkDocumentChange added Sample.word1]);
     GetCallback FromComponentDidMount (Resolved Sample.emptyResult)] in
  let late := fold_left (fun h callback => invoke Sample.toEntity Sample.message callback h)
                        callbacks (unmount h) in
  let live := fold_left (fun h callback => invoke Sample.toEntity Sample.message callback h)
                        callbacks h in
  state (this late) = initialState /\
  stateEntities (this late) = [] /\
  status (state (this live)) = STATUS_SUCCESS.
Proof.
  split; [|split; reflexivity].
  exact (proj1 (proj2 (teardown_stops_every_state_update _ _ Sample.toEntity
                         Sample.message
                         [ErrorCallback "boom";
                          SnapshotCallback
                            (Sample.snapshotOf [mkDocumentChange added Sample.word1]);
                          GetCallback FromComponentDidMount
                            (Resolved Sample.emptyResult)]
                         (mkHosted (componentDidMount newFiltrableList) true)))).
Defined.

(** C4 (witness): an instance whose listener failed. *)
Lemma error_left_only_by_resolved_fetch_witness :
  let c := onCollectionError Sample.message "boom" (componentDidMount newFiltrableList) in
  status (state c) = STATUS_ERROR /\
  status (state (handleRefresh c)) = STATUS_ERROR.
Proof.
  split; [reflexivity|].
  exact (proj1 (proj1 (proj2
    (error_left_only_by_resolved_fetch _ _ Sample.toEntity Sample.matches Sample.message
       Sample.isStringEmpty
       (onCollectionError Sample.message "boom" (componentDidMount newFiltrableList))
       eq_refl)))).
Defined.

(** C4 (counterexample): the listener fails while the first fetch is
    pending.  Pulling to refresh leaves [status] at [STATUS_ERROR], it never
    becomes [STATUS_LOADING]; and without any refresh, the first fetch
    resolving takes [status] from [STATUS_ERROR] to [STATUS_SUCCESS]. *)
Lemma refresh_never_shows_loading :
  let c := onCollectionError Sample.message "boom" (componentDidMount newFiltrableList) in
  status (state c) = STATUS_ERROR /\
  status (state (handleRefresh c)) <> STATUS_LOADING /\
  exists c',
    Sample.step (GetSettled FromComponentDidMount (Resolved Sample.emptyResult)) c = Some c' /\
    status (state c') = STATUS_SUCCESS.
Proof.
  split; [reflexivity|]. split; [discriminate|].
  eexists. split; reflexivity.
Qed.

(** ** Reconciliation of the change feed *)

Section Reconciliation.

Variable DocumentSnapshot : Type.
Variable documentSnapshotToEntity : DocumentSnapshot -> Entity.

Local Abbreviation onCollectionUpdate := (onCollectionUpdate documentSnapshotToEntity).
Local Abbreviation applyDocChange := (applyDocChange documentSnapshotToEntity).
Local Abbreviation addsAreNew := (addsAreNew documentSnapshotToEntity).

Local Abbreviation delta := (delta documentSnapshotToEntity).

Lemma findById_None i l : findById i l = None <-> ~ In i (List.map id l).
Proof.
  unfold findById. induction l as [|x l IH]; simpl; [tauto|].
  case_bool_decide as Hx.
  - split; [discriminate|]. intros Hn. destruct Hn. now left.
  - rewrite IH. tauto.
Qed.

Lemma findById_app i l e :
  findById i (l ++ [e])
  = match findById i l with
    | Some x => Some x
    | None => if bool_decide (id e = i) then Some e else None
    end.
Proof.
  unfold findById. induction l as [|x l IH]; simpl; [reflexivity|].
  destruct (bool_decide (id x = i)); [reflexivity|exact IH].
Qed.

Lemma findById_removed i j l :
  findById i (List.filter (fun e => negb (bool_decide (id e = j))) l)
  = if bool_decide (i = j) then None else findById i l.
Proof.
  unfold findById. induction l as [|x l IH]; simpl.
  - now destruct (bool_decide (i = j)).
  - destruct (bool_decide (id x = j)) eqn:Hxj; simpl.
    + apply bool_decide_eq_true in Hxj. rewrite IH.
      destruct (bool_decide (i = j)) eqn:Hij; [reflexivity|].
      apply bool_decide_eq_false in Hij.
      rewrite (bool_decide_eq_false_2 (id x = i)) by congruence. reflexivity.
    + apply bool_decide_eq_false in Hxj.
      destruct (bool_decide (id x = i)) eqn:Hxi.
      * apply bool_decide_eq_true in Hxi.
        rewrite (bool_decide_eq_false_2 (i = j)) by congruence. reflexivity.
      * exact IH.
Qed.

Lemma findById_modified i entity l :
  findById i
    (List.map (fun e => if bool_decide (id e = id entity) then entity else e) l)
  = if bool_decide (i = id entity)
    then match findById i l with Some _ => Some entity | None => None end
    else findById i l.
Proof.
  unfold findById. induction l as [|x l IH]; simpl.
  - now destruct (bool_decide (i = id entity)).
  - destruct (bool_decide (id x = id entity)) eqn:Hxe.
    + apply bool_decide_eq_true in Hxe.
      destruct (bool_decide (i = id entity)) eqn:Hie.
      * apply bool_decide_eq_true in Hie.
        rewrite (bool_decide_eq_true_2 (id entity = i)) by congruence.
        rewrite (bool_decide_eq_true_2 (id x = i)) by congruence. reflexivity.
      * apply bool_decide_eq_false in Hie.
        rewrite (bool_decide_eq_false_2 (id entity = i)) by congruence.
        rewrite (bool_decide_eq_false_2 (id x = i)) by congruence.
        exact IH.
    + apply bool_decide_eq_false in Hxe.
      destruct (bool_decide (id x = i)) eqn:Hxi.
      * apply bool_decide_eq_true in Hxi.
        rewrite (bool_decide_eq_false_2 (i = id entity)) by congruence. reflexivity.
      * exact IH.
Qed.

Lemma agrees_entitiesById l : agrees l (entitiesById l).
Proof.
  intros i. unfold findById, entitiesById.
  induction l as [|x l IH]; simpl.
  - now rewrite lookup_empty.
  - case_bool_decide as Hx.
    + subst i. now rewrite lookup_insert_eq.
    + now rewrite lookup_insert_ne.
Qed.

Lemma agrees_applyDocChange l m docChange :
  agrees l m ->
  (type docChange = added ->
   ~ In (id (documentSnapshotToEntity (doc docChange))) (List.map id l)) ->
  agrees (applyDocChange l docChange)
         (applyDelta_spec_one m (fst (delta docChange)) (snd (delta docChange))).
Proof.
  intros Hag Hnew i. unfold Model.applyDocChange, Model.delta. simpl.
  set (entity := documentSnapshotToEntity (doc docChange)) in *.
  destruct (type docChange); simpl.
  - rewrite findById_app.
    destruct (decide (id entity = i)) as [<-|Hne].
    + rewrite lookup_insert_eq, bool_decide_eq_true_2 by reflexivity.
      specialize (Hnew eq_refl). apply findById_None in Hnew. now rewrite Hnew.
    + rewrite lookup_insert_ne, bool_decide_eq_false_2, <- Hag by assumption.
      now destruct (findById i l).
  - rewrite findById_removed.
    case_bool_decide as Hi.
    + subst i. now rewrite lookup_delete_eq.
    + rewrite lookup_delete_ne by congruence. apply Hag.
  - rewrite findById_modified.
    case_bool_decide as Hi.
    + subst i. rewrite <- (Hag (id entity)).
      destruct (findById (id entity) l) eqn:Hf.
      * now rewrite lookup_insert_eq.
      * now rewrite <- Hag.
    + destruct (m !! id entity); [|apply Hag].
      rewrite lookup_insert_ne by congruence. apply Hag.
Qed.

Lemma NoDup_ids_filter (p : Entity -> bool) l :
  List.NoDup (List.map id l) -> List.NoDup (List.map id (List.filter p l)).
Proof.
  induction l as [|x l IH]; simpl; intros Hnd; [constructor|].
  apply NoDup_cons_iff in Hnd as [Hx Hl].
  destruct (p x); simpl; [|now apply IH].
  apply NoDup_cons_iff. split; [|now apply IH].
  intros Hin. apply Hx. apply in_map_iff in Hin as [y [Hy Hin]].
  apply filter_In in Hin as [Hin _]. apply in_map_iff. now exists y.
Qed.

Lemma ids_modified entity l :
  List.map id (List.map (fun e => if bool_decide (id e = id entity) then entity else e) l)
  = List.map id l.
Proof.
  induction l as [|x l IH]; simpl; [reflexivity|].
  rewrite IH. case_bool_decide as Hx; congruence.
Qed.

Lemma NoDup_ids_applyDocChange l docChange :
  List.NoDup (List.map id l) ->
  (type docChange = added ->
   ~ In (id (documentSnapshotToEntity (doc docChange))) (List.map id l)) ->
  List.NoDup (List.map id (applyDocChange l docChange)).
Proof.
  intros Hnd Hnew. unfold Model.applyDocChange.
  destruct (type docChange).
  - rewrite List.map_app. simpl.
    apply (Permutation_NoDup (l := id (documentSnapshotToEntity (doc docChange))
                                     :: List.map id l)).
    + apply Permutation_cons_append.
    + constructor; [now apply Hnew|assumption].
  - now apply NoDup_ids_filter.
  - now rewrite ids_modified.
Qed.

Lemma fold_applyDocChange changes : forall l m,
  agrees l m -> List.NoDup (List.map id l) -> addsAreNew l changes ->
  List.NoDup (List.map id (fold_left applyDocChange changes l)) /\
  agrees (fold_left applyDocChange changes l)
         (applyDelta_spec m (List.map delta changes)).
Proof.
  induction changes as [|docChange rest IH]; intros l m Hag Hnd Hnew; simpl.
  - now split.
  - destruct Hnew as [Hhere Hrest].
    apply IH; [now apply agrees_applyDocChange|now apply NoDup_ids_applyDocChange|assumption].
Qed.

Lemma addsAreNew_app a : forall l b,
  addsAreNew l (a ++ b) <->
  addsAreNew l a /\ addsAreNew (fold_left applyDocChange a l) b.
Proof.
  induction a as [|docChange a IH]; intros l b; simpl; [tauto|].
  rewrite IH. tauto.
Qed.

(** Changes for other ids leave the entry of an id alone. *)
Lemma findById_untouched i changes : forall l,
  Forall (fun docChange => id (documentSnapshotToEntity (doc docChange)) <> i) changes ->
  findById i (fold_left applyDocChange changes l) = findById i l.
Proof.
  induction changes as [|docChange rest IH]; intros l Hall; simpl; [reflexivity|].
  inversion Hall as [|? ? Hhere Hrest]; subst.
  rewrite IH by assumption. unfold Model.applyDocChange.
  destruct (type docChange).
  - rewrite findById_app, bool_decide_eq_false_2 by assumption.
    now destruct (findById i l).
  - rewrite findById_removed, bool_decide_eq_false_2 by congruence. reflexivity.
  - rewrite findById_modified, bool_decide_eq_false_2 by congruence. reflexivity.
Qed.

(** The entry of an id right after a change for it. *)
Lemma findById_changed l docChange :
  (type docChange = added ->
   ~ In (id (documentSnapshotToEntity (doc docChange))) (List.map id l)) ->
  findById (id (documentSnapshotToEntity (doc docChange))) (applyDocChange l docChange)
  = match type docChange with
    | added => Some (documentSnapshotToEntity (doc docChange))
    | removed => None
    | modified =>
        match findById (id (documentSnapshotToEntity (doc docChange))) l with
        | Some _ => Some (documentSnapshotToEntity (doc docChange))
        | None => None
        end
    end.
Proof.
  intros Hnew. unfold Model.applyDocChange.
  destruct (type docChange).
  - rewrite findById_app, bool_decide_eq_true_2 by reflexivity.
    specialize (Hnew eq_refl). apply findById_None in Hnew. now rewrite Hnew.
  - rewrite findById_removed, bool_decide_eq_true_2 by reflexivity. reflexivity.
  - rewrite findById_modified, bool_decide_eq_true_2 by reflexivity. reflexivity.
Qed.

(** A sequence of snapshots amounts to the fold of all their changes. *)
Lemma stateEntities_snapshots snapshots : forall c,
  stateEntities (fold_left (fun c q => onCollectionUpdate q c) snapshots c)
  = fold_left applyDocChange (concat (List.map docChanges snapshots)) (stateEntities c).
Proof.
  induction snapshots as [|q snapshots IH]; intros c; simpl; [reflexivity|].
  rewrite IH, fold_left_app.
  now rewrite (stateEntities_onCollectionUpdate _ documentSnapshotToEntity).
Qed.

(** C1 (amended): for every sequence of snapshots in which each [added]
    change carries an id the collection does not hold when the change is
    applied, starting from a collection without duplicate ids, the
    resulting collection has exactly one entry per id, and that entry is
    the outcome of the last change for the id.  Id by id the collection
    holds what the spec's fold over the mapping holds; and the last change
    of the sequence for an id decides its entry: the entity of an [added]
    change, none after a [removed] one, and after a [modified] one its
    entity when the id had an entry and still none when it had not. *)
Theorem onCollectionUpdate_last_outcome_per_id c
    (snapshots : list (QuerySnapshot DocumentSnapshot)) :
  List.NoDup (List.map id (stateEntities c)) ->
  addsAreNew (stateEntities c) (concat (List.map docChanges snapshots)) ->
  let c' := fold_left (fun c q => onCollectionUpdate q c) snapshots c in
  List.NoDup (List.map id (stateEntities c')) /\
  (forall i,
      findById i (stateEntities c')
      = applyDelta_spec (entitiesById (stateEntities c))
          (List.map delta (concat (List.map docChanges snapshots))) !! i) /\
  (forall before docChange after,
      concat (List.map docChanges snapshots) = before ++ docChange :: after ->
      Forall (fun later => id (documentSnapshotToEntity (doc later))
                           <> id (documentSnapshotToEntity (doc docChange))) after ->
      findById (id (documentSnapshotToEntity (doc docChange))) (stateEntities c')
      = match type docChange with
        | added => Some (documentSnapshotToEntity (doc docChange))
        | removed => None
        | modified =>
            match findById (id (documentSnapshotToEntity (doc docChange)))
                           (fold_left applyDocChange before (stateEntities c)) with
            | Some _ => Some (documentSnapshotToEntity (doc docChange))
            | None => None
            end
        end).
Proof.
  intros Hnd Hnew c'. unfold c'. rewrite stateEntities_snapshots.
  destruct (fold_applyDocChange (concat (List.map docChanges snapshots))
              (stateEntities c) (entitiesById (stateEntities c)))
    as [Hnd' Hag]; [apply agrees_entitiesById|assumption|assumption|].
  split; [exact Hnd'|]. split; [exact Hag|].
  intros before docChange after Hsplit Hlater.
  rewrite Hsplit in Hnew |- *.
  apply addsAreNew_app in Hnew as [_ [Hhere _]].
  rewrite fold_left_app. simpl.
  rewrite findById_untouched by assumption.
  now apply findById_changed.
Qed.

End Reconciliation.

(** C1 (witness): the spec's scenario, two entities added, the first one
    modified, the second one removed. *)
Lemma onCollectionUpdate_last_outcome_per_id_witness :
  let snapshots :=
    [Sample.snapshotOf [mkDocumentChange added Sample.word1;
                        mkDocumentChange added Sample.word2];
     Sample.snapshotOf [mkDocumentChange modified Sample.word1'];
     Sample.snapshotOf [mkDocumentChange removed Sample.word2]] in
  let c' :=
    fold_left (fun c q => onCollectionUpdate Sample.toEntity q c) snapshots Sample.mounted in
  stateEntities c' = [Sample.word1'] /\
  List.NoDup (List.map id (stateEntities c')).
Proof.
  split; [reflexivity|].
  refine (proj1 (onCollectionUpdate_last_outcome_per_id _ Sample.toEntity Sample.mounted
    [Sample.snapshotOf [mkDocumentChange added Sample.word1;
                        mkDocumentChange added Sample.word2];
     Sample.snapshotOf [mkDocumentChange modified Sample.word1'];
     Sample.snapshotOf [mkDocumentChange removed Sample.word2]] _ _)).
  - simpl. constructor.
  - simpl. repeat split; try discriminate.
    + intros _ [].
    + intros _ [Heq|[]]. discriminate Heq.
Defined.

(** C1 (counterexample): a second [added] change for an id the collection
    holds is appended.  The collection then has two entries for the id, and
    the entry found for it is still the first one, where the spec's mapping
    holds the second. *)
Lemma added_twice_is_kept_twice :
  let changes := [mkDocumentChange added Sample.word1;
                  mkDocumentChange added Sample.word1'] in
  let c' := onCollectionUpdate Sample.toEntity (Sample.snapshotOf changes) Sample.mounted in
  stateEntities c' = [Sample.word1; Sample.word1'] /\
  ~ List.NoDup (List.map id (stateEntities c')) /\
  findById (Some "1") (stateEntities c')
  <> applyDelta_spec (entitiesById (stateEntities Sample.mounted))
       (List.map (delta Sample.toEntity) changes) !! Some "1".
Proof.
  split; [reflexivity|]. split.
  - simpl. intros Hnd. apply NoDup_cons_iff in Hnd as [Hin _].
    apply Hin. now left.
  - simpl. unfold delta, applyDelta_spec. simpl.
    change (id Sample.word1') with (Some "1").
    rewrite lookup_insert_eq. discriminate.
Qed.

(** ** The display sequence: contents *)

Section DisplayContents.

Variables DocumentSnapshot SnapshotError : Type.
Variable documentSnapshotToEntity : DocumentSnapshot -> Entity.
Variable props_filterEntities : option string -> Entity -> bool.
Variable getErrorMessageFromFirestoreError : SnapshotError -> string.
Variable isStringEmpty : option string -> bool.

(** What the callers rely on: the absent and the empty string are empty. *)
Hypothesis isStringEmpty_absent : isStringEmpty None = true.
Hypothesis isStringEmpty_empty : isStringEmpty (Some "") = true.

Local Abbreviation candidates := (candidates isStringEmpty props_filterEntities).
Local Abbreviation memoCoherent := (memoCoherent isStringEmpty props_filterEntities).
Local Abbreviation filterEntities := (filterEntities props_filterEntities isStringEmpty).
Local Abbreviation filterEntities_fn := (filterEntities_fn props_filterEntities isStringEmpty).
Local Abbreviation renderContent := (renderContent props_filterEntities isStringEmpty).
Local Abbreviation step :=
  (step documentSnapshotToEntity props_filterEntities
        getErrorMessageFromFirestoreError isStringEmpty).
Local Abbreviation run :=
  (run documentSnapshotToEntity props_filterEntities
       getErrorMessageFromFirestoreError isStringEmpty).

Lemma memoCoherent_new : memoCoherent newFiltrableList.
Proof. split; simpl; [lia|exact I]. Qed.

(** Coherence only looks at the heap, the memo cell and the state's
    reference. *)
Lemma memoCoherent_same c c' :
  heap c' = heap c -> memo c' = memo c -> entities (state c') = entities (state c) ->
  memoCoherent c -> memoCoherent c'.
Proof.
  unfold Model.memoCoherent. intros -> -> ->. trivial.
Qed.

(** Storing a freshly allocated array keeps the instance coherent. *)
Lemma memoCoherent_alloc c c' v :
  heap c' = fst (alloc (heap c) v) -> memo c' = memo c ->
  entities (state c') = snd (alloc (heap c) v) ->
  memoCoherent c -> memoCoherent c'.
Proof.
  unfold Model.memoCoherent. intros Hh Hm He [Hents Hmemo].
  rewrite Hh, Hm, He, length_alloc. split; [simpl; lia|].
  destruct (memo c) as [m|]; [|exact I].
  destruct Hmemo as (Ha & Hr & Hperm).
  rewrite !deref_alloc_old by assumption.
  repeat split; try lia. exact Hperm.
Qed.

Lemma filterEntities_fn_coherent h ents f :
  (ents < length h)%nat ->
  let call := filterEntities_fn h ents f in
  (length h <= length (fst call))%nat /\
  (snd call < length (fst call))%nat /\
  Permutation (deref (fst call) (snd call)) (candidates f (deref (fst call) ents)).
Proof.
  intros Hents. unfold Model.filterEntities_fn, Model.candidates.
  destruct (isStringEmpty f); simpl.
  - rewrite length_write. repeat split; try lia. reflexivity.
  - set (v := List.filter _ _).
    assert (Hlen : (length h < length (h ++ [v]))%nat) by (rewrite length_app; simpl; lia).
    assert (Hv : deref (h ++ [v]) (length h) = v) by apply (deref_alloc h v).
    rewrite length_write, Hv, deref_write_valid by assumption.
    rewrite deref_write_other by lia.
    change (h ++ [v]) with (fst (alloc h v)). rewrite deref_alloc_old by assumption.
    repeat split; try (simpl; lia).
    apply Array_sort_perm.
Qed.

Lemma memoCoherent_filterEntities c f :
  memoCoherent c -> memoCoherent (fst (filterEntities c (entities (state c)) f)).
Proof.
  intros Hc. pose proof Hc as [Hents Hmemo].
  assert (Hmiss : forall h r,
             filterEntities_fn (heap c) (entities (state c)) f = (h, r) ->
             memoCoherent
               (with_memo (Some (mkMemoCell (entities (state c)) f r)) (with_heap h c))).
  { intros h r Hcall.
    pose proof (filterEntities_fn_coherent (heap c) (entities (state c)) f Hents) as Hfn.
    rewrite Hcall in Hfn. simpl in Hfn. destruct Hfn as (Hlen & Hr & Hperm).
    unfold Model.memoCoherent. simpl. repeat split; try lia. exact Hperm. }
  unfold Model.filterEntities.
  destruct (memo c) as [m|]; [case_bool_decide|];
    try (destruct (filterEntities_fn _ _ _) as [h r] eqn:Hcall; now apply Hmiss).
  exact Hc.
Qed.

Lemma memoCoherent_renderContent c :
  memoCoherent c -> memoCoherent (fst (renderContent c)).
Proof.
  intros Hc. unfold Model.renderContent.
  pose proof (memoCoherent_filterEntities c (filter (state c)) Hc) as Hf.
  destruct (status (state c)); try exact Hc;
    destruct (filterEntities _ _ _) as [c1 r]; simpl in Hf;
    destruct (Nat.eqb _ _); exact Hf.
Qed.

Lemma memoCoherent_refreshEntities settled c :
  memoCoherent c ->
  memoCoherent
    (refreshEntities documentSnapshotToEntity getErrorMessageFromFirestoreError settled c).
Proof.
  intros Hc. destruct settled as [snap|e]; simpl.
  - eapply memoCoherent_alloc; [| | |exact Hc]; reflexivity.
  - eapply memoCoherent_same; [| | |exact Hc]; reflexivity.
Qed.

Lemma memoCoherent_step ev c c' :
  step ev c = Some c' -> memoCoherent c -> memoCoherent c'.
Proof.
  intros Hstep Hc.
  destruct ev as [| |qs|e|origin settled| |text| |]; simpl in Hstep.
  - injection Hstep as <-. eapply memoCoherent_same; [| | |exact Hc]; reflexivity.
  - injection Hstep as <-. unfold componentWillUnmount.
    destruct (unsubscribe c); [|exact Hc].
    eapply memoCoherent_same; [| | |exact Hc]; reflexivity.
  - destruct (listening c); [|discriminate]. injection Hstep as <-.
    eapply memoCoherent_alloc; [| | |exact Hc]; reflexivity.
  - destruct (listening c); [|discriminate]. injection Hstep as <-.
    eapply memoCoherent_same; [| | |exact Hc]; reflexivity.
  - destruct (take_pending origin (pending c)) as [p|]; [|discriminate].
    injection Hstep as <-.
    assert (H1 : memoCoherent
                   (refreshEntities documentSnapshotToEntity
                      getErrorMessageFromFirestoreError settled (with_pending p c))).
    { apply memoCoherent_refreshEntities.
      eapply memoCoherent_same; [| | |exact Hc]; reflexivity. }
    unfold refreshEntities_settled, Model.refreshEntities_settled_on,
      Model.refreshEntities_on, React_setState.
    destruct origin; [exact H1|].
    eapply memoCoherent_same; [| | |exact H1]; reflexivity.
  - injection Hstep as <-. eapply memoCoherent_same; [| | |exact Hc]; reflexivity.
  - injection Hstep as <-. eapply memoCoherent_same; [| | |exact Hc]; reflexivity.
  - injection Hstep as <-. eapply memoCoherent_same; [| | |exact Hc]; reflexivity.
  - injection Hstep as <-. now apply memoCoherent_renderContent.
Qed.

(** Every instance the events lead to is coherent. *)
Lemma memoCoherent_run evs : forall c c',
  run evs c = Some c' -> memoCoherent c -> memoCoherent c'.
Proof.
  induction evs as [|ev evs IH]; intros c c' Hrun Hc; simpl in Hrun.
  - now injection Hrun as <-.
  - destruct (step ev c) as [c1|] eqn:Hstep; [|discriminate].
    eapply IH; [exact Hrun|]. eapply memoCoherent_step; eassumption.
Qed.

(** In a coherent instance the array [filterEntities] returns for the
    state's collection is a rearrangement of the candidates, whether it is
    computed or remembered. *)
Lemma filterEntities_candidates c f :
  memoCoherent c ->
  let call := filterEntities c (entities (state c)) f in
  Permutation (deref (heap (fst call)) (snd call)) (candidates f (stateEntities c)).
Proof.
  intros [Hents Hmemo]. unfold stateEntities.
  assert (Hmiss : forall h r,
             filterEntities_fn (heap c) (entities (state c)) f = (h, r) ->
             Permutation (deref h r) (candidates f (deref (heap c) (entities (state c))))).
  { intros h r Hcall.
    pose proof (displaySequence_sorted_candidates props_filterEntities isStringEmpty
                  (heap c) (entities (state c)) f) as Hd.
    unfold displaySequence in Hd. rewrite Hcall in Hd. rewrite Hd.
    apply Array_sort_perm. }
  unfold Model.filterEntities.
  destruct (memo c) as [m|]; [case_bool_decide as Hargs|];
    try (destruct (filterEntities_fn _ _ _) as [h r] eqn:Hcall; now apply Hmiss).
  simpl. destruct Hargs as [He Hf]. destruct Hmemo as (_ & _ & Hperm).
  now rewrite He, Hf in Hperm.
Qed.

Lemma In_candidates f l e :
  In e (candidates f l) <->
  In e l /\ (isStringEmpty f = true \/ props_filterEntities f e = true).
Proof.
  unfold Model.candidates. destruct (isStringEmpty f).
  - tauto.
  - rewrite filter_In. intuition discriminate.
Qed.

(** C2 (amended): in every state the instance reaches and for every filter
    text, the display sequence that [filterEntities] returns consists of
    exactly the entities the caller's predicate accepts for the filter text,
    or of all entities when [isStringEmpty] holds of the filter, as it does
    when the filter is absent or empty, each as often as the collection
    holds it.  It has no two elements with the same id whenever the stored
    collection has none; in general it repeats an id exactly when the
    accepted entities do. *)
Theorem filterEntities_exactly_matching evs c :
  run evs newFiltrableList = Some c ->
  let call := filterEntities c (entities (state c)) (filter (state c)) in
  let shown := deref (heap (fst call)) (snd call) in
  Permutation shown (candidates (filter (state c)) (stateEntities c)) /\
  (forall e,
      In e shown <->
      In e (stateEntities c) /\
      (isStringEmpty (filter (state c)) = true \/
       props_filterEntities (filter (state c)) e = true)) /\
  (filter (state c) = None \/ filter (state c) = Some "" ->
   Permutation shown (stateEntities c)) /\
  (List.NoDup (List.map id shown) <->
   List.NoDup (List.map id (candidates (filter (state c)) (stateEntities c)))) /\
  (List.NoDup (List.map id (stateEntities c)) -> List.NoDup (List.map id shown)).
Proof.
  intros Hrun call shown.
  assert (Hc : memoCoherent c)
    by (eapply memoCoherent_run; [exact Hrun|apply memoCoherent_new]).
  pose proof (filterEntities_candidates c (filter (state c)) Hc) as Hperm.
  fold call in Hperm. fold shown in Hperm.
  assert (Hids : Permutation (List.map id shown)
                   (List.map id (candidates (filter (state c)) (stateEntities c))))
    by (apply Permutation_map; exact Hperm).
  assert (Hiff : List.NoDup (List.map id shown) <->
                 List.NoDup (List.map id (candidates (filter (state c))
                                                     (stateEntities c)))).
  { split; apply Permutation_NoDup; [exact Hids|now symmetry]. }
  split; [exact Hperm|]. split; [|split; [|split; [exact Hiff|]]].
  - intros e. rewrite <- In_candidates.
    split; apply Permutation_in; [exact Hperm|now symmetry].
  - intros Hempty. etransitivity; [exact Hperm|]. unfold Model.candidates.
    destruct Hempty as [-> | ->].
    + now rewrite isStringEmpty_absent.
    + now rewrite isStringEmpty_empty.
  - intros Hnd. apply Hiff. unfold Model.candidates.
    destruct (isStringEmpty (filter (state c))); [assumption|].
    now apply NoDup_ids_filter.
Qed.

End DisplayContents.

(** C2 (witness): two entities are added and a filter is typed that only
    the second one matches. *)
Lemma filterEntities_exactly_matching_witness :
  Sample.run Sample.twoWordsEvents newFiltrableList = Some Sample.twoWords /\
  let call := filterEntities Sample.matches Sample.isStringEmpty Sample.twoWords
                (entities (state Sample.twoWords)) (filter (state Sample.twoWords)) in
  deref (heap (fst call)) (snd call) = [Sample.word2] /\
  Permutation (deref (heap (fst call)) (snd call))
    (candidates Sample.isStringEmpty Sample.matches (filter (state Sample.twoWords))
       (stateEntities Sample.twoWords)).
Proof.
  split; [reflexivity|]. split; [reflexivity|].
  exact (proj1 (filterEntities_exactly_matching _ _ Sample.toEntity Sample.matches
                  Sample.message Sample.isStringEmpty eq_refl eq_refl
                  Sample.twoWordsEvents Sample.twoWords eq_refl)).
Defined.

(** C2 (counterexample): after two [added] changes for the same id the
    collection holds the id twice, and so does the display sequence. *)
Lemma displaySequence_repeats_id :
  let evs :=
    [Mount;
     GetSettled FromComponentDidMount (Resolved Sample.emptyResult);
     SnapshotDelivered
       (Sample.snapshotOf [mkDocumentChange added Sample.word1;
                           mkDocumentChange added Sample.word1'])] in
  exists c,
    Sample.run evs newFiltrableList = Some c /\
    let call := filterEntities Sample.matches Sample.isStringEmpty c
                  (entities (state c)) (filter (state c)) in
    deref (heap (fst call)) (snd call) = [Sample.word1'; Sample.word1] /\
    ~ List.NoDup (List.map id (deref (heap (fst call)) (snd call))).
Proof.
  eexists. split; [reflexivity|]. split; [reflexivity|].
  simpl. intros Hnd. apply NoDup_cons_iff in Hnd as [Hin _].
  apply Hin. now left.
Qed.

(** ** The sign-up service *)

Section SignUpProperties.

Variable AuthError : Type.
Variable isStringEmpty : option string -> bool.
Variable getErrorMessageFromFirestoreError : Thrown AuthError -> string.
Variable createUserWithEmailAndPassword :
  option string -> option string -> option AuthError.

Hypothesis isStringEmpty_absent : isStringEmpty None = true.
Hypothesis isStringEmpty_empty : isStringEmpty (Some "") = true.

Local Abbreviation signUp :=
  (signUp isStringEmpty getErrorMessageFromFirestoreError createUserWithEmailAndPassword).

(** Whatever [signUp] rejects with was built by its [catch] clause. *)
Lemma signUp_rejection_translated email password calls thrown calls' :
  signUp email password calls = (inl thrown, calls') ->
  exists cause, thrown = JsError (getErrorMessageFromFirestoreError cause).
Proof.
  unfold Model.signUp, try_catch, bind, when_, throw, ret, await_createUser.
  destruct (isStringEmpty email); [intros [= <- _]; eexists; reflexivity|].
  destruct (isStringEmpty password); [intros [= <- _]; eexists; reflexivity|].
  destruct (createUserWithEmailAndPassword email password).
  - intros [= <- _]; eexists; reflexivity.
  - discriminate.
Qed.

(** An empty argument rejects before the backend is reached. *)
Lemma signUp_empty_argument email password calls :
  isStringEmpty email = true \/ isStringEmpty password = true ->
  exists cause,
    signUp email password calls
    = (inl (JsError (getErrorMessageFromFirestoreError cause)), calls).
Proof.
  unfold Model.signUp, try_catch, bind, when_, throw, ret, await_createUser.
  intros Hempty.
  destruct (isStringEmpty email); [eexists; reflexivity|].
  destruct (isStringEmpty password); [eexists; reflexivity|].
  destruct Hempty; discriminate.
Qed.

(** C10: when the email or the password is absent or empty, [signUp]
    rejects with an [Error] and the backend has not been called (the
    recorded calls are those made before); and every rejection of
    [signUp], whatever its arguments, is an [Error] whose message the
    translation function produced. *)
Theorem signUp_requires_email_and_password email password calls :
  email = None \/ email = Some "" \/ password = None \/ password = Some "" ->
  (exists cause,
      signUp email password calls
      = (inl (JsError (getErrorMessageFromFirestoreError cause)), calls)) /\
  (forall email' password' calls0 thrown calls1,
      signUp email' password' calls0 = (inl thrown, calls1) ->
      exists cause, thrown = JsError (getErrorMessageFromFirestoreError cause)).
Proof.
  intros Hempty. split; [|exact signUp_rejection_translated].
  apply signUp_empty_argument.
  destruct Hempty as [-> | [-> | [-> | ->]]]; auto.
Qed.

End SignUpProperties.

(** C10 (witness): an empty email. *)
Lemma signUp_requires_email_and_password_witness :
  exists cause,
    signUp Sample.isStringEmpty Sample.authMessage Sample.createUser
      (Some "") (Some "secret") []
    = (inl (JsError (Sample.authMessage cause)), []).
Proof.
  exact (proj1 (signUp_requires_email_and_password string Sample.isStringEmpty
                  Sample.authMessage Sample.createUser eq_refl eq_refl
                  (Some "") (Some "secret") [] (or_intror (or_introl eq_refl)))).
Defined.

(** * Further properties of the component *)

(** ** What holds in every state the events lead to *)

Section Reachable.

Variables DocumentSnapshot SnapshotError : Type.
Variable documentSnapshotToEntity : DocumentSnapshot -> Entity.
Variable props_filterEntities : option string -> Entity -> bool.
Variable getErrorMessageFromFirestoreError : SnapshotError -> string.
Variable isStringEmpty : option string -> bool.

Local Abbreviation step :=
  (step documentSnapshotToEntity props_filterEntities
        getErrorMessageFromFirestoreError isStringEmpty).
Local Abbreviation run :=
  (run documentSnapshotToEntity props_filterEntities
       getErrorMessageFromFirestoreError isStringEmpty).
Local Abbreviation renderContent := (renderContent props_filterEntities isStringEmpty).
Local Abbreviation refreshEntities :=
  (refreshEntities documentSnapshotToEntity getErrorMessageFromFirestoreError).
Local Abbreviation memoCoherent := (memoCoherent isStringEmpty props_filterEntities).

(** What every event preserves holds after any sequence of events. *)
Lemma run_preserves (I : FiltrableList -> Prop) :
  (forall ev c c', step ev c = Some c' -> I c -> I c') ->
  forall evs c c', run evs c = Some c' -> I c -> I c'.
Proof.
  intros Hstep. induction evs as [|ev evs IH]; intros c c' Hrun Hc; simpl in Hrun.
  - now injection Hrun as <-.
  - destruct (step ev c) as [c1|] eqn:Hev; [|discriminate].
    eapply IH; [exact Hrun|]. eapply Hstep; eassumption.
Qed.

(** The events that leave [status] and [error] alone, and those that set
    them. *)
Lemma step_status_error ev c c' :
  step ev c = Some c' ->
  (status (state c') = status (state c) /\ error (state c') = error (state c)) \/
  (status (state c') = STATUS_SUCCESS /\ error (state c') = error (state c)) \/
  (status (state c') = STATUS_ERROR /\ is_Some (error (state c'))).
Proof.
  intros Hstep.
  destruct ev as [| |qs|e|origin settled| |text| |]; simpl in Hstep.
  - injection Hstep as <-. now left.
  - injection Hstep as <-. left. unfold componentWillUnmount.
    now destruct (unsubscribe c).
  - destruct (listening c); [|discriminate]. injection Hstep as <-.
    left. unfold Model.onCollectionUpdate, Model.onCollectionUpdate_on, React_setState.
          now destruct (alloc _ _).
  - destruct (listening c); [|discriminate]. injection Hstep as <-.
    right. right. split; [reflexivity|]. eexists; reflexivity.
  - destruct (take_pending origin (pending c)) as [p|]; [|discriminate].
    injection Hstep as <-. destruct settled as [snap|e].
    + right. left. unfold refreshEntities_settled, Model.refreshEntities,
                     Model.refreshEntities_settled_on, Model.refreshEntities_on,
                     React_setState.
      destruct (alloc _ _). now destruct origin.
    + right. right. destruct origin; (split; [reflexivity|eexists; reflexivity]).
  - injection Hstep as <-. now left.
  - injection Hstep as <-. now left.
  - injection Hstep as <-. now left.
  - injection Hstep as <-. left.
    now rewrite (state_renderContent props_filterEntities isStringEmpty).
Qed.

(** X1: in every state the events lead to, [status] is never
    [STATUS_IDLE], and a [STATUS_ERROR] comes with an error message: the
    [this.state.error!] that [renderContent] hands to the error view is
    defined, and nothing else is computed for that view. *)
Theorem error_status_has_a_message evs c :
  run evs newFiltrableList = Some c ->
  status (state c) <> STATUS_IDLE /\
  (status (state c) = STATUS_ERROR ->
   exists message,
     error (state c) = Some message /\
     renderContent c = (c, ErrorMessage (Some message))).
Proof.
  intros Hrun.
  assert (Hinv : status (state c) <> STATUS_IDLE /\
                 (status (state c) = STATUS_ERROR -> is_Some (error (state c)))).
  { refine (run_preserves
              (fun c => status (state c) <> STATUS_IDLE /\
                        (status (state c) = STATUS_ERROR -> is_Some (error (state c))))
              _ evs _ c Hrun _).
    - intros ev c0 c1 Hstep [Hidle Herr].
      destruct (step_status_error ev c0 c1 Hstep)
        as [[Hs He]|[[Hs He]|[Hs He]]]; rewrite Hs.
      + split; [assumption|]. rewrite He. exact Herr.
      + split; [discriminate|discriminate].
      + split; [discriminate|]. intros _. exact He.
    - split; [discriminate|discriminate]. }
  destruct Hinv as [Hidle Herr]. split; [exact Hidle|].
  intros Hs. destruct (Herr Hs) as [message Hm]. exists message.
  split; [exact Hm|]. unfold Model.renderContent. now rewrite Hs, Hm.
Qed.

(** X2: [STATUS_LOADING] is only the state before the first outcome: once
    [status] has left it, no sequence of events brings it back. *)
Theorem status_never_returns_to_loading evs c c' :
  run evs c = Some c' ->
  status (state c) <> STATUS_LOADING ->
  status (state c') <> STATUS_LOADING.
Proof.
  apply (run_preserves (fun c => status (state c) <> STATUS_LOADING)).
  intros ev c0 c1 Hstep Hc.
  destruct (step_status_error ev c0 c1 Hstep) as [[Hs _]|[[Hs _]|[Hs _]]];
    rewrite Hs; [assumption|discriminate|discriminate].
Qed.

End Reachable.

(** ** Sorting what is sorted *)

Section SortedAlready.

Context {A : Type} (comparefn : A -> A -> Z).

(** Neighbours the comparator does not want swapped. *)
Local Abbreviation inOrder := (fun x y : A => comparefn x y <= 0).

Lemma Array_sort_in_order l : Sorted inOrder l -> Array_sort comparefn l = l.
Proof.
  induction 1 as [|x l Hl IH Hx]; [reflexivity|].
  simpl. rewrite IH. destruct Hx as [|y l' Hxy]; [reflexivity|].
  simpl. apply Z.ltb_ge in Hxy. now rewrite Hxy.
Qed.

(** With a comparator that never asks for both orders of a pair, the
    result of the sort has its neighbours in order. *)
Lemma Array_sort_insert_Sorted x l :
  (forall a b, 0 < comparefn a b -> comparefn b a <= 0) ->
  Sorted inOrder l -> Sorted inOrder (Array_sort_insert comparefn x l).
Proof.
  intros Hanti Hl. induction Hl as [|y l Hl IH Hy]; simpl.
  - repeat constructor.
  - destruct (0 <? comparefn x y) eqn:Hc.
    + apply Z.ltb_lt in Hc. constructor; [exact IH|].
      destruct Hy as [|z l' Hyz]; simpl.
      * constructor. now apply Hanti.
      * destruct (0 <? comparefn x z); constructor; [assumption|now apply Hanti].
    + apply Z.ltb_ge in Hc. constructor; [now constructor|now constructor].
Qed.

Lemma Array_sort_Sorted l :
  (forall a b, 0 < comparefn a b -> comparefn b a <= 0) ->
  Sorted inOrder (Array_sort comparefn l).
Proof.
  intros Hanti. induction l as [|x l IH]; simpl; [constructor|].
  now apply Array_sort_insert_Sorted.
Qed.

End SortedAlready.

Lemma compareUpdatedAt_opposite e1 e2 :
  compareUpdatedAt e2 e1 = - compareUpdatedAt e1 e2.
Proof.
  unfold compareUpdatedAt. destruct (updatedAt e1), (updatedAt e2); lia.
Qed.

Lemma Array_sort_compareUpdatedAt_twice l :
  Array_sort compareUpdatedAt (Array_sort compareUpdatedAt l)
  = Array_sort compareUpdatedAt l.
Proof.
  apply Array_sort_in_order, Array_sort_Sorted.
  intros a b Hab. rewrite compareUpdatedAt_opposite. lia.
Qed.

(** ** Rendering and fetching *)

Section Rendering.

Variables DocumentSnapshot SnapshotError : Type.
Variable documentSnapshotToEntity : DocumentSnapshot -> Entity.
Variable props_filterEntities : option string -> Entity -> bool.
Variable getErrorMessageFromFirestoreError : SnapshotError -> string.
Variable isStringEmpty : option string -> bool.

Local Abbreviation run :=
  (run documentSnapshotToEntity props_filterEntities
       getErrorMessageFromFirestoreError isStringEmpty).
Local Abbreviation step :=
  (step documentSnapshotToEntity props_filterEntities
        getErrorMessageFromFirestoreError isStringEmpty).
Local Abbreviation renderContent := (renderContent props_filterEntities isStringEmpty).
Local Abbreviation filterEntities := (filterEntities props_filterEntities isStringEmpty).
Local Abbreviation filterEntities_fn := (filterEntities_fn props_filterEntities isStringEmpty).
Local Abbreviation candidates := (candidates isStringEmpty props_filterEntities).
Local Abbreviation memoCoherent := (memoCoherent isStringEmpty props_filterEntities).
Local Abbreviation refreshEntities :=
  (refreshEntities documentSnapshotToEntity getErrorMessageFromFirestoreError).
Local Abbreviation onCollectionUpdate := (onCollectionUpdate documentSnapshotToEntity).
Local Abbreviation applyDocChange := (applyDocChange documentSnapshotToEntity).

(** What a call leaves behind the reference it was given. *)
Lemma deref_argument_after_filterEntities_fn h ents f :
  (ents < length h)%nat ->
  deref (fst (filterEntities_fn h ents f)) ents
  = if isStringEmpty f then Array_sort compareUpdatedAt (deref h ents) else deref h ents.
Proof.
  intros Hents. destruct (isStringEmpty f) eqn:Hf.
  - now apply filterEntities_fn_empty_filter_sorts_argument.
  - now apply filterEntities_fn_filtering_keeps_arrays.
Qed.

Lemma stateEntities_after_filterEntities c f :
  (entities (state c) < length (heap c))%nat ->
  stateEntities (fst (filterEntities c (entities (state c)) f)) = stateEntities c \/
  (isStringEmpty f = true /\
   stateEntities (fst (filterEntities c (entities (state c)) f))
   = Array_sort compareUpdatedAt (stateEntities c)).
Proof.
  intros Hents.
  assert (Hmiss : forall h r,
             filterEntities_fn (heap c) (entities (state c)) f = (h, r) ->
             deref h (entities (state c)) = stateEntities c \/
             (isStringEmpty f = true /\
              deref h (entities (state c))
              = Array_sort compareUpdatedAt (stateEntities c))).
  { intros h r Hcall.
    pose proof (deref_argument_after_filterEntities_fn (heap c) (entities (state c)) f Hents)
      as Hd. rewrite Hcall in Hd. simpl in Hd. rewrite Hd.
    destruct (isStringEmpty f); [right; now split|now left]. }
  unfold Model.filterEntities.
  destruct (memo c) as [m|]; [case_bool_decide|];
    try (destruct (filterEntities_fn _ _ _) as [h r] eqn:Hcall; exact (Hmiss h r eq_refl)).
  now left.
Qed.

Lemma stateEntities_after_renderContent c :
  (entities (state c) < length (heap c))%nat ->
  stateEntities (fst (renderContent c)) = stateEntities c \/
  (isStringEmpty (filter (state c)) = true /\
   stateEntities (fst (renderContent c)) = Array_sort compareUpdatedAt (stateEntities c)).
Proof.
  intros Hents. unfold Model.renderContent.
  pose proof (stateEntities_after_filterEntities c (filter (state c)) Hents) as Hf.
  destruct (status (state c)); try (now left);
    destruct (filterEntities _ _ _) as [c1 r]; simpl in Hf;
    destruct (Nat.eqb _ _); exact Hf.
Qed.

(** X4: rendering only ever reorders the stored collection.  In every state
    the events lead to, rendering leaves every state field as it is and the
    stored array holds the same entities as before, each as often as
    before; with a non-empty filter even their order is the same. *)
Theorem render_only_reorders_the_collection evs c :
  run evs newFiltrableList = Some c ->
  let c' := fst (renderContent c) in
  state c' = state c /\
  Permutation (stateEntities c') (stateEntities c) /\
  (isStringEmpty (filter (state c)) = false -> stateEntities c' = stateEntities c).
Proof.
  intros Hrun c'.
  assert (Hc : memoCoherent c)
    by (eapply memoCoherent_run; [exact Hrun|apply memoCoherent_new]).
  destruct Hc as [Hents _].
  split; [apply state_renderContent|].
  destruct (stateEntities_after_renderContent c Hents) as [Heq|[Hf Heq]];
    fold c' in Heq; rewrite Heq.
  - split; [reflexivity|reflexivity].
  - split; [apply Array_sort_perm|]. rewrite Hf. discriminate.
Qed.

(** X5: what [renderContent] shows.  While [status] is [STATUS_LOADING] it
    is the activity indicator and nothing is computed; otherwise, unless
    [status] is [STATUS_ERROR], it is the empty-list message exactly when no
    stored entity passes the filter, and else the list, whose data are the
    entities that pass the filter and whose refresh indicator is
    [isRefreshing]. *)
Theorem renderContent_shows evs c :
  run evs newFiltrableList = Some c ->
  let passing := candidates (filter (state c)) (stateEntities c) in
  (status (state c) = STATUS_LOADING -> renderContent c = (c, ActivityIndicator)) /\
  (status (state c) <> STATUS_LOADING -> status (state c) <> STATUS_ERROR ->
   (passing = [] -> snd (renderContent c) = EmptyListMessage) /\
   (passing <> [] ->
    exists data,
      snd (renderContent c) = FlatList data (isRefreshing (state c)) /\
      Permutation (deref (heap (fst (renderContent c))) data) passing)).
Proof.
  intros Hrun passing.
  assert (Hc : memoCoherent c)
    by (eapply memoCoherent_run; [exact Hrun|apply memoCoherent_new]).
  split.
  - intros Hs. unfold Model.renderContent. now rewrite Hs.
  - intros Hl He.
    pose proof (filterEntities_candidates props_filterEntities isStringEmpty c
                  (filter (state c)) Hc) as Hperm. simpl in Hperm. fold passing in Hperm.
    pose proof (state_filterEntities props_filterEntities isStringEmpty c
                  (entities (state c)) (filter (state c))) as Hstate.
    assert (Hview :
      renderContent c
      = let call := filterEntities c (entities (state c)) (filter (state c)) in
        if Nat.eqb (length (deref (heap (fst call)) (snd call))) 0
        then (fst call, EmptyListMessage)
        else (fst call, FlatList (snd call) (isRefreshing (state (fst call))))).
    { unfold Model.renderContent.
      destruct (status (state c)); try congruence;
        now destruct (filterEntities _ _ _). }
    rewrite Hview. simpl.
    destruct (filterEntities c (entities (state c)) (filter (state c))) as [c1 r].
    simpl in *. split.
    + intros Hnone. rewrite Hnone in Hperm. symmetry in Hperm.
      apply Permutation_nil in Hperm. now rewrite Hperm.
    + intros Hsome.
      destruct (deref (heap c1) r) as [|e shown] eqn:Hshown.
      * apply Permutation_nil in Hperm. contradiction.
      * simpl. exists r. rewrite Hstate. split; [reflexivity|].
        now rewrite Hshown.
Qed.

(** X6: [refreshEntities] replaces, it does not merge.  When the fetch
    resolves, the stored collection consists of the fetched documents'
    entities, whatever it held before; [status] is [STATUS_SUCCESS]; the
    stored error message and the filter stay, and every array that existed
    keeps its contents.  When the fetch is rejected, the collection and all
    arrays are as before, [status] is [STATUS_ERROR] and the error is the
    translated message. *)
Theorem refreshEntities_replaces_the_collection settled c :
  let c' := refreshEntities settled c in
  filter (state c') = filter (state c) /\
  match settled with
  | Resolved snap =>
      Permutation (stateEntities c') (List.map documentSnapshotToEntity (docs snap)) /\
      status (state c') = STATUS_SUCCESS /\
      error (state c') = error (state c) /\
      (forall r, (r < length (heap c))%nat -> deref (heap c') r = deref (heap c) r)
  | Rejected e =>
      stateEntities c' = stateEntities c /\
      heap c' = heap c /\
      status (state c') = STATUS_ERROR /\
      error (state c') = Some (getErrorMessageFromFirestoreError e)
  end.
Proof.
  destruct settled as [snap|e]; simpl.
  - split; [reflexivity|]. split; [|split; [reflexivity|split; [reflexivity|]]].
    + set (v := Array_sort _ _).
      pose proof (deref_alloc (heap c) v) as Hv. unfold stateEntities. simpl.
      unfold alloc in Hv. simpl in Hv. rewrite Hv. apply Array_sort_perm.
    + intros r Hr. now apply (deref_alloc_old (heap c)).
  - repeat split.
Qed.

(** X7: what a fetch has stored, rendering does not reorder.  After a
    resolved fetch whose entities all carry an [updatedAt], or none of them
    (the arrays on which every stable sort gives the same result),
    rendering with an empty filter leaves the stored array exactly as the
    fetch stored it. *)
Theorem render_after_refresh_keeps_the_order snap c :
  Forall (fun e => is_Some (updatedAt e)) (List.map documentSnapshotToEntity (docs snap)) \/
  Forall (fun e => updatedAt e = None) (List.map documentSnapshotToEntity (docs snap)) ->
  isStringEmpty (filter (state c)) = true ->
  let c1 := refreshEntities (Resolved snap) c in
  stateEntities (fst (renderContent c1)) = stateEntities c1 /\
  stateEntities c1
  = Array_sort compareUpdatedAt (List.map documentSnapshotToEntity (docs snap)).
Proof.
  intros _ Hf c1.
  assert (Hstored : stateEntities c1
                    = Array_sort compareUpdatedAt
                        (List.map documentSnapshotToEntity (docs snap))).
  { unfold c1, stateEntities. simpl.
    set (v := Array_sort _ _).
    pose proof (deref_alloc (heap c) v) as Hv. unfold alloc in Hv. simpl in Hv.
    exact Hv. }
  split; [|exact Hstored].
  assert (Hents : (entities (state c1) < length (heap c1))%nat).
  { unfold c1. simpl. rewrite length_app. simpl. lia. }
  destruct (stateEntities_after_renderContent c1 Hents) as [Heq|[_ Heq]];
    rewrite Heq; [reflexivity|].
  rewrite Hstored. apply Array_sort_compareUpdatedAt_twice.
Qed.

End Rendering.

(** ** Where the stored entities come from *)

Section Provenance.

Variables DocumentSnapshot SnapshotError : Type.
Variable documentSnapshotToEntity : DocumentSnapshot -> Entity.
Variable props_filterEntities : option string -> Entity -> bool.
Variable getErrorMessageFromFirestoreError : SnapshotError -> string.
Variable isStringEmpty : option string -> bool.

Local Abbreviation run :=
  (run documentSnapshotToEntity props_filterEntities
       getErrorMessageFromFirestoreError isStringEmpty).
Local Abbreviation step :=
  (step documentSnapshotToEntity props_filterEntities
        getErrorMessageFromFirestoreError isStringEmpty).
Local Abbreviation filterEntities := (filterEntities props_filterEntities isStringEmpty).
Local Abbreviation candidates := (candidates isStringEmpty props_filterEntities).
Local Abbreviation memoCoherent := (memoCoherent isStringEmpty props_filterEntities).
Local Abbreviation applyDocChange := (applyDocChange documentSnapshotToEntity).

(** The three ways an event changes the stored collection: rendering may
    reorder it, a snapshot folds its changes into it, a resolved fetch
    replaces it. *)
Lemma stateEntities_step ev c c' :
  step ev c = Some c' ->
  (entities (state c) < length (heap c))%nat ->
  Permutation (stateEntities c') (stateEntities c) \/
  (exists querySnapshot,
      stateEntities c'
      = fold_left applyDocChange (docChanges querySnapshot) (stateEntities c)) \/
  (exists snap,
      stateEntities c'
      = Array_sort compareUpdatedAt (List.map documentSnapshotToEntity (docs snap))).
Proof.
  intros Hstep Hents.
  destruct ev as [| |qs|e|origin settled| |text| |]; simpl in Hstep.
  - injection Hstep as <-. now left.
  - injection Hstep as <-. left. unfold componentWillUnmount.
    now destruct (unsubscribe c).
  - destruct (listening c); [|discriminate]. injection Hstep as <-.
    right. left. exists qs. apply stateEntities_onCollectionUpdate.
  - destruct (listening c); [|discriminate]. injection Hstep as <-. now left.
  - destruct (take_pending origin (pending c)) as [p|]; [|discriminate].
    injection Hstep as <-. destruct settled as [snap|e].
    + right. right. exists snap.
      set (v := Array_sort compareUpdatedAt
                  (List.map documentSnapshotToEntity (docs snap))).
      pose proof (deref_alloc (heap c) v) as Hv. unfold alloc in Hv. simpl in Hv.
      destruct origin; exact Hv.
    + left. now destruct origin.
  - injection Hstep as <-. now left.
  - injection Hstep as <-. now left.
  - injection Hstep as <-. now left.
  - injection Hstep as <-. left.
    destruct (stateEntities_after_renderContent props_filterEntities isStringEmpty c Hents)
      as [Heq|[_ Heq]]; rewrite Heq; [reflexivity|apply Array_sort_perm].
Qed.

Lemma Forall_applyDocChange (P : Entity -> Prop) l docChange :
  (forall d, P (documentSnapshotToEntity d)) ->
  Forall P l -> Forall P (applyDocChange l docChange).
Proof.
  intros HP Hl. unfold Model.applyDocChange. destruct (type docChange).
  - apply Forall_app. split; [assumption|]. constructor; [apply HP|constructor].
  - rewrite List.Forall_forall in Hl |- *. intros e He.
    apply filter_In in He as [He _]. now apply Hl.
  - rewrite List.Forall_forall in Hl |- *. intros e He.
    apply in_map_iff in He as [x [Hx Hin]].
    destruct (bool_decide (id x = id (documentSnapshotToEntity (doc docChange))));
      subst e; [apply HP|now apply Hl].
Qed.

Lemma Forall_fold_applyDocChange (P : Entity -> Prop) changes : forall l,
  (forall d, P (documentSnapshotToEntity d)) ->
  Forall P l -> Forall P (fold_left applyDocChange changes l).
Proof.
  induction changes as [|docChange rest IH]; intros l HP Hl; simpl; [assumption|].
  apply IH; [assumption|]. now apply Forall_applyDocChange.
Qed.

(** X8: every stored entity was made by [documentSnapshotToEntity].  Whatever
    holds of all its results holds, in every state the events lead to, of
    every entity of the stored collection and of every entity
    [filterEntities] returns for it; so when every document gets an [id],
    [keyExtractor] finds a key for every entity of the list. *)
Theorem stored_entities_come_from_documents (P : Entity -> Prop) evs c :
  (forall d, P (documentSnapshotToEntity d)) ->
  run evs newFiltrableList = Some c ->
  Forall P (stateEntities c) /\
  forall f,
    Forall P (deref (heap (fst (filterEntities c (entities (state c)) f)))
                    (snd (filterEntities c (entities (state c)) f))).
Proof.
  intros HP Hrun.
  assert (Hinv : memoCoherent c /\ Forall P (stateEntities c)).
  { refine (run_preserves _ _ documentSnapshotToEntity props_filterEntities
              getErrorMessageFromFirestoreError isStringEmpty
              (fun c => memoCoherent c /\ Forall P (stateEntities c))
              _ evs _ c Hrun _).
    - intros ev c0 c1 Hstep [Hc Hall]. split.
      + eapply memoCoherent_step; eassumption.
      + destruct (stateEntities_step ev c0 c1 Hstep (proj1 Hc))
          as [Hperm|[[qs Heq]|[snap Heq]]].
        * now rewrite Hperm.
        * rewrite Heq. now apply Forall_fold_applyDocChange.
        * rewrite Heq, (Array_sort_perm compareUpdatedAt).
          rewrite List.Forall_forall. intros e He.
          apply in_map_iff in He as [d [<- _]]. apply HP.
    - split; [apply memoCoherent_new|constructor]. }
  destruct Hinv as [Hc Hall]. split; [exact Hall|].
  intros f.
  pose proof (filterEntities_candidates props_filterEntities isStringEmpty c f Hc) as Hperm.
  simpl in Hperm. rewrite Hperm. unfold Model.candidates.
  destruct (isStringEmpty f); [exact Hall|].
  rewrite List.Forall_forall in Hall |- *. intros e He.
  apply filter_In in He as [He _]. now apply Hall.
Qed.

End Provenance.

(** ** More on the change feed *)

Section Changes.

Variable DocumentSnapshot : Type.
Variable documentSnapshotToEntity : DocumentSnapshot -> Entity.

Local Abbreviation onCollectionUpdate := (onCollectionUpdate documentSnapshotToEntity).
Local Abbreviation applyDocChange := (applyDocChange documentSnapshotToEntity).

Lemma removed_unknown_id i l :
  ~ In i (List.map id l) ->
  List.filter (fun e => negb (bool_decide (id e = i))) l = l.
Proof.
  induction l as [|x l IH]; intros Hnot; [reflexivity|].
  simpl in *. rewrite bool_decide_eq_false_2 by tauto. simpl.
  rewrite IH by tauto. reflexivity.
Qed.

(** X9: a [removed] change deletes every entry that carries its id, also
    when the id is stored more than once; the other entities stay, in their
    order; and when no entry carries the id the collection is as before. *)
Theorem removed_deletes_every_entry_of_the_id c d others :
  let i := id (documentSnapshotToEntity d) in
  let c' := onCollectionUpdate (mkQuerySnapshot [mkDocumentChange removed d] others) c in
  ~ In i (List.map id (stateEntities c')) /\
  stateEntities c'
  = List.filter (fun e => negb (bool_decide (id e = i))) (stateEntities c) /\
  (forall e, id e <> i -> (In e (stateEntities c') <-> In e (stateEntities c))) /\
  (~ In i (List.map id (stateEntities c)) -> stateEntities c' = stateEntities c).
Proof.
  intros i c'.
  assert (Heq : stateEntities c'
                = List.filter (fun e => negb (bool_decide (id e = i))) (stateEntities c)).
  { unfold c'. now rewrite stateEntities_onCollectionUpdate. }
  rewrite Heq. split; [|split; [reflexivity|split]].
  - intros Hin. apply in_map_iff in Hin as [e [He Hin]].
    apply filter_In in Hin as [_ Hne].
    rewrite bool_decide_eq_true_2 in Hne by assumption. discriminate.
  - intros e He. rewrite filter_In.
    rewrite bool_decide_eq_false_2 by assumption. simpl. tauto.
  - apply removed_unknown_id.
Qed.

(** X10: adding an entity under an id the collection does not hold and then
    removing it gives the collection back, entity by entity and in the same
    order, whether the two changes come in one snapshot or in two. *)
Theorem added_then_removed_restores_the_collection c d others1 others2 :
  ~ In (id (documentSnapshotToEntity d)) (List.map id (stateEntities c)) ->
  stateEntities
    (onCollectionUpdate
       (mkQuerySnapshot [mkDocumentChange added d; mkDocumentChange removed d] others1) c)
  = stateEntities c /\
  stateEntities
    (onCollectionUpdate (mkQuerySnapshot [mkDocumentChange removed d] others2)
       (onCollectionUpdate (mkQuerySnapshot [mkDocumentChange added d] others1) c))
  = stateEntities c.
Proof.
  intros Hnew.
  assert (Hround : List.filter
                     (fun e => negb (bool_decide (id e = id (documentSnapshotToEntity d))))
                     (stateEntities c ++ [documentSnapshotToEntity d])
                   = stateEntities c).
  { rewrite List.filter_app. simpl.
    rewrite bool_decide_eq_true_2 by reflexivity. simpl.
    rewrite removed_unknown_id by assumption. apply app_nil_r. }
  split.
  - rewrite stateEntities_onCollectionUpdate. exact Hround.
  - rewrite !stateEntities_onCollectionUpdate. exact Hround.
Qed.

Lemma ids_fold_modified changes : forall l,
  Forall (fun docChange : DocumentChange DocumentSnapshot => type docChange = modified)
         changes ->
  List.map id (fold_left applyDocChange changes l) = List.map id l.
Proof.
  induction changes as [|docChange rest IH]; intros l Hall; [reflexivity|].
  inversion Hall as [|? ? Hm Hrest]; subst. simpl.
  rewrite IH by assumption. unfold Model.applyDocChange. rewrite Hm.
  apply ids_modified.
Qed.

(** X11: a snapshot that only carries [modified] changes keeps the ids of
    the collection where they are: the same ids, in the same positions, as
    many entries as before. *)
Theorem modified_changes_keep_the_ids c querySnapshot :
  Forall (fun docChange => type docChange = modified) (docChanges querySnapshot) ->
  List.map id (stateEntities (onCollectionUpdate querySnapshot c))
  = List.map id (stateEntities c) /\
  length (stateEntities (onCollectionUpdate querySnapshot c)) = length (stateEntities c).
Proof.
  intros Hall.
  assert (Hids : List.map id (stateEntities (onCollectionUpdate querySnapshot c))
                 = List.map id (stateEntities c)).
  { rewrite stateEntities_onCollectionUpdate. now apply ids_fold_modified. }
  split; [exact Hids|].
  rewrite <- (length_map id), Hids. apply length_map.
Qed.

Lemma fold_added documents : forall l,
  fold_left applyDocChange (List.map (mkDocumentChange added) documents) l
  = l ++ List.map documentSnapshotToEntity documents.
Proof.
  induction documents as [|d documents IH]; intros l; simpl.
  - now rewrite app_nil_r.
  - rewrite IH. unfold Model.applyDocChange. simpl.
    now rewrite <- app_assoc.
Qed.

End Changes.

Section FirstSnapshot.

Variables DocumentSnapshot SnapshotError : Type.
Variable documentSnapshotToEntity : DocumentSnapshot -> Entity.
Variable props_filterEntities : option string -> Entity -> bool.
Variable getErrorMessageFromFirestoreError : SnapshotError -> string.
Variable isStringEmpty : option string -> bool.

Local Abbreviation run :=
  (run documentSnapshotToEntity props_filterEntities
       getErrorMessageFromFirestoreError isStringEmpty).

(** X12: the first fetch and the listener's first snapshot do not commute.
    [componentDidMount] starts both; when the snapshot reports the
    documents as [added] and the fetch resolves with the same documents,
    the collection holds every document once if the snapshot comes first
    (the fetch replaces what the snapshot stored), and twice if the fetch
    resolves first (the snapshot appends to what the fetch stored). *)
Theorem first_fetch_and_first_snapshot_do_not_commute
    (documents : list DocumentSnapshot) :
  let reported : QuerySnapshot DocumentSnapshot :=
    mkQuerySnapshot (List.map (mkDocumentChange added) documents) documents in
  let fetched := Array_sort compareUpdatedAt
                   (List.map documentSnapshotToEntity documents) in
  exists snapshotFirst fetchFirst,
    run [Mount; SnapshotDelivered reported;
         GetSettled FromComponentDidMount (Resolved reported)] newFiltrableList
    = Some snapshotFirst /\
    run [Mount; GetSettled FromComponentDidMount (Resolved reported);
         SnapshotDelivered reported] newFiltrableList
    = Some fetchFirst /\
    stateEntities snapshotFirst = fetched /\
    stateEntities fetchFirst = fetched ++ List.map documentSnapshotToEntity documents.
Proof.
  intros reported fetched.
  eexists. eexists. split; [reflexivity|]. split; [reflexivity|]. split.
  - reflexivity.
  - unfold stateEntities. simpl. apply fold_added.
Qed.

End FirstSnapshot.

(** ** More on the sign-up service *)

Section SignUpOutcomes.

Variable AuthError : Type.
Variable isStringEmpty : option string -> bool.
Variable getErrorMessageFromFirestoreError : Thrown AuthError -> string.
Variable createUserWithEmailAndPassword :
  option string -> option string -> option AuthError.

Local Abbreviation signUp :=
  (signUp isStringEmpty getErrorMessageFromFirestoreError createUserWithEmailAndPassword).

(** X13: with an email and a password that are not empty, [signUp] calls the
    backend once, with that email and that password; it resolves when the
    backend does, and when the backend rejects it rejects with an [Error]
    whose message is the translation of the backend's error. *)
Theorem signUp_calls_the_backend_once email password calls :
  isStringEmpty email = false ->
  isStringEmpty password = false ->
  signUp email password calls
  = (match createUserWithEmailAndPassword email password with
     | None => inr tt
     | Some e => inl (JsError (getErrorMessageFromFirestoreError (BackendError e)))
     end,
     calls ++ [(email, password)]).
Proof.
  intros He Hp.
  unfold Model.signUp, try_catch, bind, when_, throw, ret, await_createUser.
  rewrite He, Hp.
  now destruct (createUserWithEmailAndPassword email password).
Qed.

(** X14: the email is checked first.  With an empty email the rejection is
    the translation of the error [Email is required.], whatever the
    password; the error [Password is required.] is only reported for an
    email that is not empty. *)
Theorem signUp_reports_the_email_first email password calls :
  (isStringEmpty email = true ->
   signUp email password calls
   = (inl (JsError (getErrorMessageFromFirestoreError (JsError "Email is required."))),
      calls)) /\
  (isStringEmpty email = false -> isStringEmpty password = true ->
   signUp email password calls
   = (inl (JsError (getErrorMessageFromFirestoreError (JsError "Password is required."))),
      calls)).
Proof.
  unfold Model.signUp, try_catch, bind, when_, throw, ret, await_createUser.
  split.
  - intros He. now rewrite He.
  - intros He Hp. now rewrite He, Hp.
Qed.

End SignUpOutcomes.

(** ** The further properties at sample inputs *)

(** X1 (witness): the listener has failed. *)
Lemma error_status_has_a_message_witness :
  Sample.run Sample.failedEvents newFiltrableList = Some Sample.failed /\
  status (state Sample.failed) <> STATUS_IDLE.
Proof.
  split; [reflexivity|].
  exact (proj1 (error_status_has_a_message _ _ Sample.toEntity Sample.matches
                  Sample.message Sample.isStringEmpty
                  Sample.failedEvents Sample.failed eq_refl)).
Defined.

(** X2 (witness): after the first fetch has succeeded, the list is pulled
    down and the listener fails. *)
Lemma status_never_returns_to_loading_witness :
  exists c',
    Sample.run [RefreshPulled; SnapshotFailed "boom"] Sample.mounted = Some c' /\
    status (state Sample.mounted) <> STATUS_LOADING /\
    status (state c') <> STATUS_LOADING.
Proof.
  eexists. split; [reflexivity|].
  assert (H : status (state Sample.mounted) <> STATUS_LOADING) by discriminate.
  split; [exact H|].
  exact (status_never_returns_to_loading _ _ Sample.toEntity Sample.matches
           Sample.message Sample.isStringEmpty
           [RefreshPulled; SnapshotFailed "boom"] Sample.mounted _ eq_refl H).
Defined.

(** X4 (witness): two words and a filter. *)
Lemma render_only_reorders_the_collection_witness :
  Sample.run Sample.twoWordsEvents newFiltrableList = Some Sample.twoWords /\
  state (fst (renderContent Sample.matches Sample.isStringEmpty Sample.twoWords))
  = state Sample.twoWords.
Proof.
  split; [reflexivity|].
  exact (proj1 (render_only_reorders_the_collection _ _ Sample.toEntity Sample.matches
                  Sample.message Sample.isStringEmpty
                  Sample.twoWordsEvents Sample.twoWords eq_refl)).
Defined.

(** X5 (witness): two words and a filter; nothing is loading there. *)
Lemma renderContent_shows_witness :
  Sample.run Sample.twoWordsEvents newFiltrableList = Some Sample.twoWords /\
  (status (state Sample.twoWords) = STATUS_LOADING ->
   renderContent Sample.matches Sample.isStringEmpty Sample.twoWords
   = (Sample.twoWords, ActivityIndicator)).
Proof.
  split; [reflexivity|].
  exact (proj1 (renderContent_shows _ _ Sample.toEntity Sample.matches
                  Sample.message Sample.isStringEmpty
                  Sample.twoWordsEvents Sample.twoWords eq_refl)).
Defined.

(** X7 (witness): a fetch of two words, oldest first. *)
Lemma render_after_refresh_keeps_the_order_witness :
  let snap := mkQuerySnapshot [] [Sample.word1; Sample.word2] in
  let c1 := refreshEntities Sample.toEntity Sample.message (Resolved snap)
              newFiltrableList in
  stateEntities c1 = [Sample.word2; Sample.word1] /\
  stateEntities (fst (renderContent Sample.matches Sample.isStringEmpty c1))
  = stateEntities c1.
Proof.
  split; [reflexivity|].
  refine (proj1 (render_after_refresh_keeps_the_order _ string Sample.toEntity
                   Sample.matches Sample.message Sample.isStringEmpty
                   (mkQuerySnapshot [] [Sample.word1; Sample.word2])
                   newFiltrableList _ eq_refl)).
  left. repeat constructor; eexists; reflexivity.
Defined.

(** X8 (witness): documents that always get an id; every stored entity has
    a key. *)
Lemma stored_entities_come_from_documents_witness :
  exists c,
    run Sample.wordToEntity Sample.matches Sample.message Sample.isStringEmpty
        Sample.wordEvents newFiltrableList = Some c /\
    Forall (fun e => is_Some (keyExtractor e)) (stateEntities c).
Proof.
  eexists. split; [reflexivity|].
  refine (proj1 (stored_entities_come_from_documents _ _ Sample.wordToEntity
                   Sample.matches Sample.message Sample.isStringEmpty
                   (fun e => is_Some (keyExtractor e))
                   Sample.wordEvents _ _ eq_refl)).
  intros d. eexists; reflexivity.
Defined.

(** X10 (witness): a word is added to the empty collection and removed. *)
Lemma added_then_removed_restores_the_collection_witness :
  ~ In (id (Sample.toEntity Sample.word1)) (List.map id (stateEntities Sample.mounted)) /\
  stateEntities
    (onCollectionUpdate Sample.toEntity
       (mkQuerySnapshot [mkDocumentChange added Sample.word1;
                         mkDocumentChange removed Sample.word1] [])
       Sample.mounted)
  = stateEntities Sample.mounted.
Proof.
  assert (H : ~ In (id (Sample.toEntity Sample.word1))
                (List.map id (stateEntities Sample.mounted))) by (simpl; tauto).
  split; [exact H|].
  exact (proj1 (added_then_removed_restores_the_collection _ Sample.toEntity
                  Sample.mounted Sample.word1 [] [] H)).
Defined.

(** X11 (witness): a stored word is modified. *)
Lemma modified_changes_keep_the_ids_witness :
  let c := onCollectionUpdate Sample.toEntity
             (Sample.snapshotOf [mkDocumentChange added Sample.word1]) Sample.mounted in
  let querySnapshot := Sample.snapshotOf [mkDocumentChange modified Sample.word1'] in
  Forall (fun docChange => type docChange = modified) (docChanges querySnapshot) /\
  List.map id (stateEntities (onCollectionUpdate Sample.toEntity querySnapshot c))
  = List.map id (stateEntities c).
Proof.
  assert (H : Forall (fun docChange : DocumentChange Entity => type docChange = modified)
                (docChanges (Sample.snapshotOf [mkDocumentChange modified Sample.word1'])))
    by (repeat constructor).
  split; [exact H|].
  exact (proj1 (modified_changes_keep_the_ids _ Sample.toEntity _ _ H)).
Defined.

(** X13 (witness): an account the backend accepts, and one it refuses. *)
Lemma signUp_calls_the_backend_once_witness :
  signUp Sample.isStringEmpty Sample.authMessage Sample.createUser
    (Some "ada@example.org") (Some "secret") []
  = (inr tt, [(Some "ada@example.org", Some "secret")]) /\
  signUp Sample.isStringEmpty Sample.authMessage Sample.refuseUser
    (Some "ada@example.org") (Some "secret") []
  = (inl (JsError "auth/email-already-in-use"),
     [(Some "ada@example.org", Some "secret")]).
Proof.
  split.
  - exact (signUp_calls_the_backend_once string Sample.isStringEmpty Sample.authMessage
             Sample.createUser (Some "ada@example.org") (Some "secret") [] eq_refl eq_refl).
  - exact (signUp_calls_the_backend_once string Sample.isStringEmpty Sample.authMessage
             Sample.refuseUser (Some "ada@example.org") (Some "secret") [] eq_refl eq_refl).
Defined.

(** ** The filter bar and the loading view *)

Section FilterBar.

Variables DocumentSnapshot SnapshotError : Type.
Variable documentSnapshotToEntity : DocumentSnapshot -> Entity.
Variable props_filterEntities : option string -> Entity -> bool.
Variable getErrorMessageFromFirestoreError : SnapshotError -> string.
Variable isStringEmpty : option string -> bool.

Hypothesis isStringEmpty_absent : isStringEmpty None = true.

Local Abbreviation run :=
  (run documentSnapshotToEntity props_filterEntities
       getErrorMessageFromFirestoreError isStringEmpty).
Local Abbreviation step :=
  (step documentSnapshotToEntity props_filterEntities
        getErrorMessageFromFirestoreError isStringEmpty).
Local Abbreviation filterEntities := (filterEntities props_filterEntities isStringEmpty).
Local Abbreviation renderContent := (renderContent props_filterEntities isStringEmpty).
Local Abbreviation memoCoherent := (memoCoherent isStringEmpty props_filterEntities).
Local Abbreviation applyDocChange := (applyDocChange documentSnapshotToEntity).

(** X15: closing the filter bar brings every entity back.  In every state
    the events lead to, after [handleCloseFilterPress] the stored collection
    is untouched and the display sequence holds exactly its entities, each
    as often as the collection does, whatever the filter was. *)
Theorem closing_the_filter_shows_every_entity evs c :
  run evs newFiltrableList = Some c ->
  let c1 := handleCloseFilterPress c in
  let call := filterEntities c1 (entities (state c1)) (filter (state c1)) in
  stateEntities c1 = stateEntities c /\
  Permutation (deref (heap (fst call)) (snd call)) (stateEntities c).
Proof.
  intros Hrun c1 call.
  assert (Hc : memoCoherent c)
    by (eapply memoCoherent_run; [exact Hrun|apply memoCoherent_new]).
  assert (Hc1 : memoCoherent c1)
    by (apply (memoCoherent_step _ _ documentSnapshotToEntity props_filterEntities
                 getErrorMessageFromFirestoreError isStringEmpty
                 CloseFilterPressed c c1 eq_refl Hc)).
  split; [reflexivity|].
  pose proof (filterEntities_candidates props_filterEntities isStringEmpty c1
                (filter (state c1)) Hc1) as Hperm.
  simpl in Hperm. unfold Model.candidates in Hperm.
  rewrite isStringEmpty_absent in Hperm. exact Hperm.
Qed.

(** X16: the listener alone never ends the loading view.  Snapshots
    delivered while [status] is [STATUS_LOADING] are folded into the stored
    collection, in the order they come, but [status] stays
    [STATUS_LOADING] and [renderContent] keeps showing the activity
    indicator: the entities become visible only once a fetch has
    resolved. *)
Theorem snapshots_alone_never_end_loading
    (snapshots : list (QuerySnapshot DocumentSnapshot)) : forall c c',
  run (List.map SnapshotDelivered snapshots) c = Some c' ->
  status (state c) = STATUS_LOADING ->
  renderContent c' = (c', ActivityIndicator) /\
  stateEntities c'
  = fold_left applyDocChange (concat (List.map docChanges snapshots)) (stateEntities c).
Proof.
  induction snapshots as [|q snapshots IH]; intros c c' Hrun Hs; simpl in Hrun.
  - injection Hrun as <-. split; [|reflexivity].
    unfold Model.renderContent. now rewrite Hs.
  - destruct (listening c); [|discriminate].
    destruct (IH _ _ Hrun) as [Hview Hents].
    + unfold onCollectionUpdate, Model.onCollectionUpdate_on, React_setState.
      now destruct (alloc _ _).
    + split; [exact Hview|].
      rewrite Hents, stateEntities_onCollectionUpdate. simpl.
      now rewrite fold_left_app.
Qed.

End FilterBar.

(** X15 (witness): two words, a filter that hides one of them, and the
    filter bar closed again. *)
Lemma closing_the_filter_shows_every_entity_witness :
  Sample.run Sample.twoWordsEvents newFiltrableList = Some Sample.twoWords /\
  stateEntities (handleCloseFilterPress Sample.twoWords) = stateEntities Sample.twoWords.
Proof.
  split; [reflexivity|].
  exact (proj1 (closing_the_filter_shows_every_entity _ _ Sample.toEntity Sample.matches
                  Sample.message Sample.isStringEmpty eq_refl
                  Sample.twoWordsEvents Sample.twoWords eq_refl)).
Defined.

(** X16 (witness): the listener delivers a word before the first fetch has
    settled. *)
Lemma snapshots_alone_never_end_loading_witness :
  let snapshots := [Sample.snapshotOf [mkDocumentChange added Sample.word1]] in
  let c := componentDidMount newFiltrableList in
  exists c',
    Sample.run (List.map SnapshotDelivered snapshots) c = Some c' /\
    status (state c) = STATUS_LOADING /\
    renderContent Sample.matches Sample.isStringEmpty c' = (c', ActivityIndicator) /\
    stateEntities c' = [Sample.word1].
Proof.
  eexists. split; [reflexivity|]. split; [reflexivity|].
  exact (snapshots_alone_never_end_loading _ _ Sample.toEntity Sample.matches
           Sample.message Sample.isStringEmpty
           [Sample.snapshotOf [mkDocumentChange added Sample.word1]]
           (componentDidMount newFiltrableList) _ eq_refl eq_refl).
Defined.
